(** * process_caveman.py: background removal, cropping and target size

    A shallow embedding of [remove_background_hd] (src/process_caveman.py)
    and of the NumPy and Pillow routines it calls, followed by the
    properties of the classifier, the compositor, the cropper and the
    resampler.

    Buffers.  An image or array is a list of rows.  The two pixel loops are
    embedded as loops over [range], threading the arrays [data] and
    [result] and the counter [pixels_modified]; an index out of range is
    an error ([None]), and the loops are shown to run to their end.
    Printing and saving the file are left out.

    Numbers.  The script works on [np.float32] samples that all originate
    from 8-bit channels, and on Python floats for the aspect ratio.  The
    embedding evaluates the same expressions over the rationals [Q]: every
    comparison and every quotient of the script is written out as in the
    source, without binary rounding.  [np.std] takes a square root; the
    only use of its value is the comparison against the constant cut-off,
    which the embedding decides on the squares ([std_lt]), and section
    [StdDev] relates that test to the real-valued square root.  For lines
    77-80 the binary64 evaluation is embedded as well
    ([target_width_binary64]) and compared with the rational one on
    concrete sizes.

    Pillow.  [Image.getbbox], [Image.crop], [Image.resize] and
    [Image.filter] are library code; they are embedded after Pillow's C
    sources (GetBBox.c, Resample.c, Convert.c, Filter.c) as of the releases
    that have [Image.Resampling], which line 86 requires.  The Lanczos
    weights are transcendental and stay a parameter of the embedding. *)

From Stdlib Require Import ZArith QArith Qround Qabs Qminmax Lia Lqa.
From Stdlib Require Import Reals Qreals Lra.
From Stdlib Require Import String.
From Stdlib Require PrimFloat SpecFloat FloatOps Uint63.
From stdpp Require Import base option list.

Local Open Scope Z_scope.
Local Open Scope Q_scope.

(** ** Pixels and buffers *)

(** One RGBA sample of an 8-bit image ([Image] in mode ['RGBA'], or a
    [uint8] array of shape (h, w, 4)). *)
Record rgba8 := Rgba8 { px_r : Z; px_g : Z; px_b : Z; px_a : Z }.

(** One RGBA sample of a [float32] array of shape (h, w, 4). *)
Record rgbaf := Rgbaf { fl_r : Q; fl_g : Q; fl_b : Q; fl_a : Q }.

(** Buffers are lists of rows; the height is the number of rows and the
    width is the common length of the rows. *)
Abbreviation image8 := (list (list rgba8)).
Abbreviation ndarray := (list (list rgbaf)).

(** ** NumPy helpers *)

(** [np.clip(a, lo, hi)] *)
Definition np_clip (a lo hi : Q) : Q := Qmin (Qmax a lo) hi.

Definition Qlt_bool (x y : Q) : bool := negb (Qle_bool y x).

(** Mean and population variance of the three-element list [[r, g, b]]. *)
Definition np_mean3 (r g b : Q) : Q := (r + g + b) / 3.

Definition np_var3 (r g b : Q) : Q :=
  let m := np_mean3 r g b in
  ((r - m) * (r - m) + (g - m) * (g - m) + (b - m) * (b - m)) / 3.

(** [np.std([r, g, b]) < c], decided on the squares. *)
Definition std_lt (r g b c : Q) : bool :=
  Qle_bool 0 c && Qlt_bool (np_var3 r g b) (c * c).

(** ** The classifier (source lines 34-57) *)

Definition white_threshold : Q := 235.
Definition gradient_range : Q := 40.

Definition brightness (r g b : Q) : Q := 0.299 * r + 0.587 * g + 0.114 * b.

(** The body of the two nested [if]s: [Some alpha_factor] when the
    assignment of line 57 is reached, [None] when the pixel is skipped. *)
Definition classify (r g b : Q) : option Q :=
  if Qle_bool (white_threshold - gradient_range) (brightness r g b) then
    if std_lt r g b 15 then
      let alpha_factor :=
        (brightness r g b - (white_threshold - gradient_range)) / gradient_range in
      Some (np_clip alpha_factor 0 1)
    else None
  else None.

(** The confidence the compositor works with: a skipped pixel keeps the
    alpha 255 it was initialised with, i.e. it is composited with
    confidence 0. *)
Definition alpha_factor (r g b : Q) : Q :=
  match classify r g b with
  | Some af => af
  | None => 0
  end.

(** ** The compositor (source lines 22-60) *)

(** [np.array(img, dtype=np.float32)] *)
Definition to_float32 (p : rgba8) : rgbaf :=
  Rgbaf (inject_Z (px_r p)) (inject_Z (px_g p)) (inject_Z (px_b p))
        (inject_Z (px_a p)).

Definition np_array (img : image8) : ndarray := map (map to_float32) img.

(** [img.size] is (width, height). *)
Definition im_width {A} (img : list (list A)) : nat :=
  match img with
  | [] => 0
  | row :: _ => length row
  end.

Definition im_height {A} (img : list (list A)) : nat := length img.

(** A buffer of [h] rows of [w] samples each. *)
Definition shape {A} (w h : nat) (img : list (list A)) : Prop :=
  length img = h /\ Forall (fun row => length row = w) img.

(** [np.zeros((height, width, 4), dtype=np.float32)] *)
Definition np_zeros (height width : nat) : ndarray :=
  replicate height (replicate width (Rgbaf 0 0 0 0)).

(** [result[:, :, :3] = data[:, :, :3]] on arrays of one shape *)
Definition copy_rgb (result data : ndarray) : ndarray :=
  zip_with (zip_with (fun p d => Rgbaf (fl_r d) (fl_g d) (fl_b d) (fl_a p)))
           result data.

(** [result[:, :, 3] = v] *)
Definition fill_alpha (v : Q) (result : ndarray) : ndarray :=
  map (map (fun p => Rgbaf (fl_r p) (fl_g p) (fl_b p) v)) result.

(** [a[y, x]]; [None] stands for NumPy's IndexError. *)
Definition getitem {A} (a : list (list A)) (y x : nat) : option A :=
  a !! y ≫= fun row => row !! x.

(** [a[y, x, 3] = v]; [None] stands for NumPy's IndexError. *)
Definition setitem_alpha (a : ndarray) (y x : nat) (v : Q) : option ndarray :=
  a !! y ≫= fun row =>
  row !! x ≫= fun p =>
  Some (<[y := <[x := Rgbaf (fl_r p) (fl_g p) (fl_b p) v]> row]> a).

(** The variables the pixel loop reads and writes. *)
Record store := Store {
  data : ndarray;
  result : ndarray;
  pixels_modified : nat
}.

(** [for i in range(n): body], threading the loop state. *)
Definition for_range {S} (n : nat) (body : nat -> S -> option S) (s : S)
  : option S :=
  foldl (fun acc i => acc ≫= body i) (Some s) (seq 0 n).

(** Source lines 41-58, one iteration of the inner loop. *)
Definition pixel_body (y x : nat) (st : store) : option store :=
  getitem (data st) y x ≫= fun d =>
  match classify (fl_r d) (fl_g d) (fl_b d) with
  | Some alpha_factor =>
      setitem_alpha (result st) y x (255 * (1 - alpha_factor)) ≫= fun res =>
      Some (Store (data st) res (S (pixels_modified st)))
  | None => Some st
  end.

(** Source lines 22-58: the arrays are created and the two loops run. *)
Definition composite (img : image8) : option store :=
  let data := np_array img in
  let width := im_width img in
  let height := im_height img in
  let result := np_zeros height width in
  let result := copy_rgb result data in
  let result := fill_alpha 255 result in
  for_range height (fun y => for_range width (pixel_body y))
            (Store data result 0).

(** [np.clip(result, 0, 255).astype(np.uint8)]: the cast of a
    non-negative float drops the fraction. *)
Definition to_uint8 (q : Q) : Z := Qfloor (np_clip q 0 255).

Definition astype_uint8 (a : ndarray) : image8 :=
  map (map (fun p => Rgba8 (to_uint8 (fl_r p)) (to_uint8 (fl_g p))
                           (to_uint8 (fl_b p)) (to_uint8 (fl_a p)))) a.

(** ** The cropper (source lines 69-71) *)

(** A box (left, upper, right, lower), written (x0, y0, x1, y1) below;
    right and lower are exclusive. *)
Definition bbox := (Z * Z * Z * Z)%type.

(** Pillow's [Image.getbbox()] on an RGBA image looks at the alpha byte
    only.  One row of its scan, from column [x] on: the state is
    (has_data, bbox[0], bbox[2]). *)
Fixpoint scan_row (row : list rgba8) (x : Z) (st : bool * Z * Z)
  : bool * Z * Z :=
  match row with
  | [] => st
  | p :: rest =>
      let '(has_data, b0, b2) := st in
      scan_row rest (x + 1)
        (if negb (px_a p =? 0)%Z
         then (true, if (x <? b0)%Z then x else b0,
                     if (b2 <=? x)%Z then (x + 1)%Z else b2)
         else st)
  end.

(** The rows from row [y] on: the state is bbox[0..3]. *)
Fixpoint scan_rows (rows : image8) (y : Z) (bb : bbox) : bbox :=
  match rows with
  | [] => bb
  | row :: rest =>
      let '(b0, b1, b2, b3) := bb in
      let '(has_data, b0', b2') := scan_row row 0 (false, b0, b2) in
      scan_rows rest (y + 1)
        (if has_data
         then (b0', if (b1 <? 0)%Z then y else b1, b2', (y + 1)%Z)
         else (b0', b1, b2', b3))
  end.

(** [None] when no sample has a non-zero alpha. *)
Definition getbbox (img : image8) : option bbox :=
  let '(b0, b1, b2, b3) :=
    scan_rows img 0 (Z.of_nat (im_width img), (-1)%Z, 0%Z, 0%Z) in
  if (b1 <? 0)%Z then None else Some (b0, b1, b2, b3).

(** [img.crop(box)] for a box inside the image. *)
Definition crop (img : image8) (box : bbox) : image8 :=
  let '(x0, y0, x1, y1) := box in
  map (fun row => take (Z.to_nat (x1 - x0)) (drop (Z.to_nat x0) row))
      (take (Z.to_nat (y1 - y0)) (drop (Z.to_nat y0) img)).

(** Source lines 69-71: [if bbox: output_img = output_img.crop(bbox)]. *)
Definition crop_to_content (img : image8) : image8 :=
  match getbbox img with
  | Some box => crop img box
  | None => img
  end.

(** ** The target size (source lines 76-80) *)

(** Exceptions are named by their Python class. *)
Definition exn := string.

(** [a / b] on Python integers *)
Definition py_truediv (a b : Z) : exn + Q :=
  if (b =? 0)%Z then inl "ZeroDivisionError"%string
  else inr (inject_Z a / inject_Z b).

(** [int(q)]: truncation toward zero *)
Definition py_int (q : Q) : Z := Z.quot (Qnum q) (Zpos (Qden q)).

Definition target_height : Z := 80.

(** The pair handed to [resize]. *)
Definition target_size (original_width original_height : Z) : exn + (Z * Z) :=
  match py_truediv original_width original_height with
  | inl e => inl e
  | inr aspect_ratio =>
      let target_width := py_int (inject_Z target_height * aspect_ratio) in
      inr (target_width, target_height)
  end.

(** ** Lines 77-80 in binary64 *)

(** The same quotient, product and [int()] on IEEE binary64 numbers, to
    compare the rational embedding with at concrete sizes. *)
Definition f64_of_Z (z : Z) : PrimFloat.float :=
  PrimFloat.of_uint63 (Uint63.of_Z z).

(** [int(f)] of a finite float: the integer part of mantissa * 2^exponent. *)
Definition f64_int (f : PrimFloat.float) : Z :=
  match FloatOps.Prim2SF f with
  | SpecFloat.S754_finite s m e =>
      let v := if (0 <=? e)%Z then (Zpos m * 2 ^ e)%Z
               else (Zpos m / 2 ^ (- e))%Z in
      if s then (- v)%Z else v
  | _ => 0%Z
  end.

Definition target_width_binary64 (original_width original_height : Z) : Z :=
  let aspect_ratio :=
    PrimFloat.div (f64_of_Z original_width) (f64_of_Z original_height) in
  f64_int (PrimFloat.mul (f64_of_Z target_height) aspect_ratio).

(** All sizes from 1 x 1 to [n] x [n] get the width of [target_size]. *)
Definition binary64_agrees (n : nat) : bool :=
  forallb (fun h =>
             forallb (fun w =>
                        match target_size (Z.of_nat w) (Z.of_nat h) with
                        | inr (tw, _) =>
                            (target_width_binary64 (Z.of_nat w) (Z.of_nat h) =? tw)%Z
                        | inl _ => false
                        end)
                     (seq 1 n))
          (seq 1 n).

(** ** Pillow: [Image.resize(size, Image.Resampling.LANCZOS)] *)

(** The error monad of the pipeline. *)
Definition bind_exn {A B} (m : exn + A) (k : A -> exn + B) : exn + B :=
  match m with
  | inl e => inl e
  | inr a => k a
  end.

Notation "x <-! m ;; k" := (bind_exn m (fun x => k))
  (at level 20, m at level 99, k at level 200, only parsing).
Notation "' p <-! m ;; k" := (bind_exn m (fun x => let 'p := x in k))
  (at level 20, p pattern, m at level 99, k at level 200, only parsing).

(** [MULDIV255(a, b)] of Pillow's ImagingUtils.h *)
Definition MULDIV255 (a b : Z) : Z :=
  let tmp := (a * b + 128)%Z in
  Z.shiftr (Z.shiftr tmp 8 + tmp) 8.

Definition CLIP8 (v : Z) : Z := Z.max 0 (Z.min 255 v).

(** RGBA -> RGBa: the colours are multiplied by the alpha. *)
Definition premultiply (p : rgba8) : rgba8 :=
  let a := px_a p in
  Rgba8 (MULDIV255 (px_r p) a) (MULDIV255 (px_g p) a) (MULDIV255 (px_b p) a) a.

(** RGBa -> RGBA *)
Definition unpremultiply (p : rgba8) : rgba8 :=
  let a := px_a p in
  if ((a =? 255) || (a =? 0))%Z then p
  else Rgba8 (CLIP8 (255 * px_r p / a)) (CLIP8 (255 * px_g p / a))
             (CLIP8 (255 * px_b p / a)) a.

Definition PRECISION_BITS : Z := 22.

(** [clip8] of Resample.c: the accumulator is shifted back and clamped. *)
Definition clip8 (ss : Z) : Z := Z.max 0 (Z.min 255 (Z.shiftr ss PRECISION_BITS)).

(** The coefficient table of one pass: for the output sample [xx], the
    first input sample of its window ([bounds[xx * 2]]) and the fixed-point
    weights [k[0..xmax)]. *)
Definition coeffs := nat -> nat * list Z.

(** One output sample: every channel accumulates from
    [1 << (PRECISION_BITS - 1)] over the window. *)
Definition resample_px (window : list rgba8) (k : list Z) : rgba8 :=
  let acc (ch : rgba8 -> Z) :=
    foldl (fun ss pk => (ss + ch (fst pk) * snd pk)%Z)
          (Z.shiftl 1 (PRECISION_BITS - 1)) (zip window k) in
  Rgba8 (clip8 (acc px_r)) (clip8 (acc px_g)) (clip8 (acc px_b))
        (clip8 (acc px_a)).

Definition resample_line (cf : coeffs) (xsize : nat) (line : list rgba8)
  : list rgba8 :=
  map (fun xx => resample_px (drop (fst (cf xx)) line) (snd (cf xx)))
      (seq 0 xsize).

Definition ResampleHorizontal (cf : coeffs) (xsize : nat) (img : image8)
  : image8 :=
  map (resample_line cf xsize) img.

Definition column (img : image8) (x : nat) : list rgba8 :=
  omap (fun row => row !! x) img.

Definition ResampleVertical (cf : coeffs) (ysize : nat) (img : image8)
  : image8 :=
  map (fun yy =>
         map (fun xx =>
                resample_px (column (drop (fst (cf yy)) img) xx) (snd (cf yy)))
             (seq 0 (im_width img)))
      (seq 0 ysize).

Section Resize.

(** The table that [precompute_coeffs] and [normalize_coeffs_8bpc] build
    for the Lanczos window, as a function of the input and output
    length.  Its entries come out of [sin] in double precision and are
    not computed here. *)
Variable lanczos : nat -> nat -> coeffs.

(** [ImagingResample]: a horizontal pass when the width changes, then a
    vertical pass when the height changes.  (Pillow runs the horizontal
    pass only on the rows that the vertical windows reach; the rows it
    skips are read by no later step.) *)
Definition ImagingResample (img : image8) (xsize ysize : nat) : image8 :=
  let need_horizontal := negb (xsize =? im_width img)%nat in
  let need_vertical := negb (ysize =? im_height img)%nat in
  let img :=
    if need_horizontal
    then ResampleHorizontal (lanczos (im_width img) xsize) xsize img
    else img in
  if need_vertical
  then ResampleVertical (lanczos (im_height img) ysize) ysize img
  else img.

(** [Image.resize] on an RGBA image: a copy when the size is unchanged,
    otherwise the resampling is done on premultiplied samples; sizes
    below 1 are rejected. *)
Definition resize (img : image8) (size : Z * Z) : exn + image8 :=
  let '(xsize, ysize) := size in
  if ((xsize =? Z.of_nat (im_width img)) && (ysize =? Z.of_nat (im_height img)))%Z
  then inr img
  else if ((xsize <? 1) || (ysize <? 1))%Z
  then inl "ValueError"%string
  else
    let im := map (map premultiply) img in
    let im := ImagingResample im (Z.to_nat xsize) (Z.to_nat ysize) in
    inr (map (map unpremultiply) im).

End Resize.

(** ** Pillow: [Image.filter(ImageFilter.SHARPEN)] *)

(** The kernel (-2 -2 -2 / -2 32 -2 / -2 -2 -2), divided by its scale 16. *)
Definition SHARPEN : list Q :=
  [-2 # 16; -2 # 16; -2 # 16; -2 # 16; 32 # 16; -2 # 16; -2 # 16; -2 # 16; -2 # 16].

(** [clip8] of Filter.c *)
Definition filter_clip8 (v : Q) : Z :=
  if Qle_bool v 0 then 0%Z
  else if Qle_bool 255 v then 255%Z
  else Qfloor v.

Definition px_default : rgba8 := Rgba8 0 0 0 0.

Definition px_get (row : list rgba8) (x : nat) : rgba8 :=
  default px_default (row !! x).

Definition kernel_get (kernel : list Q) (i : nat) : Q := default 0 (kernel !! i).

(** [KERNEL1x3(in0, x, kernel, d)] for one channel *)
Definition KERNEL1x3 (ch : rgba8 -> Z) (in0 : list rgba8) (x : nat)
         (kernel : list Q) (i : nat) : Q :=
inject_Z (ch (px_get in0 (x - 1)%nat)) * kernel_get kernel i
+ inject_Z (ch (px_get in0 x)) * kernel_get kernel (i + 1)%nat
+ inject_Z (ch (px_get in0 (x + 1)%nat)) * kernel_get kernel (i + 2)%nat.

(** One inner sample of [ImagingFilter3x3]; [offset] already includes the
    0.5 added for rounding. *)
Definition filter3x3_px (kernel : list Q) (offset : Q)
         (in_1 in0 in1 : list rgba8) (x : nat) : rgba8 :=
let ss (ch : rgba8 -> Z) :=
  offset + KERNEL1x3 ch in1 x kernel 0 + KERNEL1x3 ch in0 x kernel 3
  + KERNEL1x3 ch in_1 x kernel 6 in
Rgba8 (filter_clip8 (ss px_r)) (filter_clip8 (ss px_g))
      (filter_clip8 (ss px_b)) (filter_clip8 (ss px_a)).

(** [ImagingFilter3x3]: the first and last row and the first and last
    column are copied, every other sample is convolved. *)
Definition ImagingFilter3x3 (kernel : list Q) (offset : Q) (img : image8)
  : image8 :=
  let xsize := im_width img in
  let ysize := im_height img in
  let row_get (y : nat) : list rgba8 := default [] (img !! y) in
  imap (fun (y : nat) (in0 : list rgba8) =>
          if ((y =? 0) || (y =? ysize - 1))%nat then in0
          else
            imap (fun (x : nat) (p : rgba8) =>
                    if ((x =? 0) || (x =? xsize - 1))%nat then p
                    else filter3x3_px kernel (offset + 0.5)
                                      (row_get (y - 1)%nat) in0 (row_get (y + 1)%nat) x)
                 in0)
       img.

(** [ImagingFilter]: an image smaller than the kernel is copied. *)
Definition filter_SHARPEN (img : image8) : image8 :=
  if ((im_width img <? 3) || (im_height img <? 3))%nat then img
  else ImagingFilter3x3 SHARPEN 0 img.

(** ** The whole function (source lines 10-97) *)

Section Pipeline.

Variable lanczos : nat -> nat -> coeffs.

(** The image and the size handed to [resize] on line 86. *)
Definition resize_request (img : image8) : exn + (image8 * (Z * Z)) :=
  st <-! from_option inr (inl "IndexError"%string) (composite img) ;;
  let result := astype_uint8 (result st) in
  let output_img := crop_to_content result in
  let original_width := Z.of_nat (im_width output_img) in
  let original_height := Z.of_nat (im_height output_img) in
  size <-! target_size original_width original_height ;;
  inr (output_img, size).

Definition remove_background_hd (img : image8) : exn + image8 :=
  '(output_img, size) <-! resize_request img ;;
  output_img <-! resize lanczos output_img size ;;
  inr (filter_SHARPEN output_img).

End Pipeline.

(** ** Closed forms of the pixel loop *)

(** What one iteration does to the sample [p] of [result] that lies at the
    position of the sample [d] of [data]. *)
Definition px_step (d p : rgbaf) : rgbaf :=
  match classify (fl_r d) (fl_g d) (fl_b d) with
  | Some alpha_factor =>
      Rgbaf (fl_r p) (fl_g p) (fl_b p) (255 * (1 - alpha_factor))
  | None => p
  end.

(** The composited sample for the input sample [d]. *)
Definition composite_px (d : rgbaf) : rgbaf :=
  px_step d (Rgbaf (fl_r d) (fl_g d) (fl_b d) 255).

(** The list [k] after the first [n] positions were updated from [l]. *)
Definition prefix_zip {A B} (f : A -> B -> B) (n : nat) (l : list A)
         (k : list B) : list B :=
zip_with f (take n l) (take n k) ++ drop n k.

(** Two samples with the same colour channels. *)
Definition same_rgb (p q : rgba8) : Prop :=
  px_r p = px_r q /\ px_g p = px_g q /\ px_b p = px_b q.

(** ** Content positions *)

(** Column [x] of the row holds a sample with a non-zero alpha. *)
Definition rowhit (row : list rgba8) (x : nat) : Prop :=
  exists p, row !! x = Some p /\ px_a p <> 0%Z.

(** The sample at column [x] of row [y] has a non-zero alpha. *)
Definition content (img : image8) (x y : nat) : Prop :=
  exists row, img !! y = Some row /\ rowhit row x.

(** ** Well-formed inputs of the resampling passes *)

(** Every channel is an 8-bit value. *)
Definition px_valid (p : rgba8) : Prop :=
  (0 <= px_r p <= 255)%Z /\ (0 <= px_g p <= 255)%Z /\
  (0 <= px_b p <= 255)%Z /\ (0 <= px_a p <= 255)%Z.

Definition sum_weights (k : list Z) : Z := foldr Z.add 0%Z k.

(** What [precompute_coeffs] and [normalize_coeffs_8bpc] guarantee of a
    table from [in_size] to [out_size] samples: every window lies inside
    the input, and its weights, normalised to sum 1 before they are
    rounded to PRECISION_BITS fractional bits, sum to
    [1 << PRECISION_BITS] up to the rounding of the single weights. *)
Definition coeffs_normalised (cf : coeffs) (in_size out_size : nat) : Prop :=
  forall xx, (xx < out_size)%nat ->
    (fst (cf xx) + length (snd (cf xx)) <= in_size)%nat /\
    (Z.abs (sum_weights (snd (cf xx)) - 2 ^ PRECISION_BITS) <= 2 ^ 13)%Z.

(** ** The scenario of the specification *)

Definition white : rgba8 := Rgba8 255 255 255 255.
Definition red : rgba8 := Rgba8 200 30 30 255.

(** 100 x 150 samples: a white border 10 samples thick around a red
    rectangle of 80 x 130 samples. *)
Definition scenario_interior (x y : nat) : bool :=
  ((10 <=? x) && (x <? 90) && (10 <=? y) && (y <? 140))%nat.

Definition scenario_px (x y : nat) : rgba8 :=
  if scenario_interior x y then red else white.

Definition scenario : image8 :=
  map (fun y => map (fun x => scenario_px x y) (seq 0 100)) (seq 0 150).

(** A table to try the resampler on: every output sample copies the input
    sample below its left edge. *)
Definition nearest_coeffs (in_size out_size : nat) : coeffs :=
  fun xx => ((xx * in_size / out_size)%nat, [(2 ^ PRECISION_BITS)%Z]).

(** ** Counting what the pixel loop changes *)




(** The sample that lines 22-63 produce for the input sample [p]: its
    alpha is the alpha of line 57 (or the initial 255) after the cast of
    line 63. *)
Definition alpha8 (p : rgba8) : Z :=
  to_uint8 (fl_a (composite_px (to_float32 p))).

Definition composite8 (p : rgba8) : rgba8 :=
  Rgba8 (px_r p) (px_g p) (px_b p) (alpha8 p).

(** The sample [p] with its alpha replaced. *)
Definition with_alpha (a : Z) (p : rgba8) : rgba8 :=
  Rgba8 (px_r p) (px_g p) (px_b p) a.

(** ** create_game_textures.py: drawing on a canvas *)

(** [Image.new('RGBA', (width, height), color)]; a negative size is
    rejected. *)
Definition Image_new (width height : Z) (color : rgba8) : exn + image8 :=
  if ((width <? 0) || (height <? 0))%Z then inl "ValueError"%string
  else inr (replicate (Z.to_nat height) (replicate (Z.to_nat width) color)).

(** The ink of an RGB triple on an RGBA canvas is opaque. *)
Definition rgb (r g b : Z) : rgba8 := Rgba8 r g b 255.

(** A drawn shape, as the positions (x, y) it covers. *)
Definition region := nat -> nat -> bool.

(** Drawing on an RGBA canvas writes the ink at the covered positions of
    the canvas, without blending. *)
Definition paint (m : region) (ink : rgba8) (img : image8) : image8 :=
  imap (fun (y : nat) (row : list rgba8) =>
          imap (fun (x : nat) (p : rgba8) => if m x y then ink else p) row)
       img.

(** [draw.rectangle([x0, y0, x1, y1], fill=...)]: both corners are part of
    the rectangle. *)
Definition rectangle_fill (x0 y0 x1 y1 : Z) : region :=
  fun x y =>
    ((x0 <=? Z.of_nat x) && (Z.of_nat x <=? x1)
     && (y0 <=? Z.of_nat y) && (Z.of_nat y <=? y1))%Z.

(** [for i in range(n): body] where the body may raise. *)
Definition for_range_exn {S} (n : nat) (body : nat -> S -> exn + S) (s : S)
  : exn + S :=
  foldl (fun acc i => bind_exn acc (body i)) (inr s) (seq 0 n).

(** [max(0, min(255, c + shade))] *)
Definition shaded (c shade : Z) : Z := Z.max 0 (Z.min 255 (c + shade)).

(** The other rasterisers of ImageDraw, by the arguments of the call:
    filled and outlined ellipse, outlined rectangle, line, filled and
    outlined polygon, arc.  Which positions they cover is left open.
    (ImageDraw rejects or ignores a box whose corners are out of order,
    depending on the release; the properties below are stated for sizes
    at which every box of the source is in order.) *)
Class ImageDraw := {
  ellipse_fill : Z -> Z -> Z -> Z -> region;
  ellipse_outline : Z -> Z -> Z -> Z -> Z -> region;
  rectangle_outline : Z -> Z -> Z -> Z -> Z -> region;
  line : list (Z * Z) -> Z -> region;
  polygon_fill : list (Z * Z) -> region;
  polygon_outline : list (Z * Z) -> Z -> region;
  arc : Z -> Z -> Z -> Z -> Z -> Z -> Z -> region
}.

(** The generator of the [random] module: [random.seed(n)] gives a state,
    [random.randint(a, b)] a number and the next state, or an exception. *)
Class Random := {
  rng : Type;
  seed : Z -> rng;
  randint : Z -> Z -> rng -> exn + (Z * rng)
}.

(** [random.randint(a, b)] returns some N with a <= N <= b, and raises
    ValueError on an empty range. *)
Definition randint_spec `{Random} : Prop :=
  (forall a b g, (a <= b)%Z ->
     exists v g', randint a b g = inr (v, g') /\ (a <= v <= b)%Z) /\
  (forall a b g, (b < a)%Z -> randint a b g = inl "ValueError"%string).

Section Textures.

Context `{ImageDraw} `{Random}.

(** Source lines 12-66. *)
Definition create_enhanced_caveman (size : Z) : exn + image8 :=
  img <-! Image_new size size (Rgba8 0 0 0 0) ;;
  let cx := (size / 2)%Z in
  let cy := (size / 2)%Z in
  let body_color := rgb 101 67 33 in
  let img := paint (ellipse_fill (cx - 24) (cy - 8) (cx + 24) (cy + 40))
                   body_color img in
  let arm_color := rgb 210 180 140 in
  let img := paint (ellipse_fill (cx - 32) cy (cx - 16) (cy + 32))
                   arm_color img in
  let img := paint (ellipse_fill (cx + 16) cy (cx + 32) (cy + 32))
                   arm_color img in
  let leg_color := rgb 210 180 140 in
  let img := paint (rectangle_fill (cx - 16) (cy + 36) (cx - 4) (cy + 60))
                   leg_color img in
  let img := paint (rectangle_fill (cx + 4) (cy + 36) (cx + 16) (cy + 60))
                   leg_color img in
  let foot_color := rgb 101 67 33 in
  let img := paint (ellipse_fill (cx - 18) (cy + 56) (cx - 2) (cy + 64))
                   foot_color img in
  let img := paint (ellipse_fill (cx + 2) (cy + 56) (cx + 18) (cy + 64))
                   foot_color img in
  let skin_color := rgb 210 180 140 in
  let img := paint (ellipse_fill (cx - 20) (cy - 40) (cx + 20) cy)
                   skin_color img in
  let hair_color := rgb 70 40 20 in
  let img := paint (ellipse_fill (cx - 22) (cy - 42) (cx + 22) (cy - 20))
                   hair_color img in
  let img := paint (ellipse_fill (cx - 24) (cy - 38) (cx - 12) (cy - 28))
                   hair_color img in
  let img := paint (ellipse_fill (cx + 12) (cy - 38) (cx + 24) (cy - 28))
                   hair_color img in
  let eye_color := rgb 50 30 20 in
  let img := paint (ellipse_fill (cx - 12) (cy - 26) (cx - 6) (cy - 20))
                   eye_color img in
  let img := paint (ellipse_fill (cx + 6) (cy - 26) (cx + 12) (cy - 20))
                   eye_color img in
  let img := paint (arc (cx - 10) (cy - 18) (cx + 10) (cy - 8) 0 180 2)
                   (rgb 50 30 20) img in
  let img := paint (ellipse_outline (cx - 20) (cy - 40) (cx + 20) cy 2)
                   (rgb 0 0 0) img in
  inr img.

(** Source lines 80-90, one spot of the stone texture. *)
Definition platform_spot (width height : Z) (i : nat) (st : rng * image8)
  : exn + (rng * image8) :=
  let '(g, img) := st in
  '(x, g) <-! randint 0 (width - 10) g ;;
  '(y, g) <-! randint 0 (height - 5) g ;;
  '(size, g) <-! randint 3 8 g ;;
  '(shade, g) <-! randint (-30) 30 g ;;
  let color := rgb (shaded 136 shade) (shaded 136 shade) (shaded 136 shade) in
  inr (g, paint (ellipse_fill x y (x + size) (y + size)) color img).

(** Source lines 68-98. *)
Definition create_platform_texture (width height : Z) : exn + image8 :=
  img <-! Image_new width height (Rgba8 0 0 0 0) ;;
  let base_color := rgb 136 136 136 in
  let img := paint (rectangle_fill 0 0 width height) base_color img in
  '(g, img) <-! for_range_exn 50 (platform_spot width height) (seed 42, img) ;;
  let img := paint (rectangle_outline 0 0 (width - 1) (height - 1) 2)
                   (rgb 85 85 85) img in
  let img := paint (line [(2, 2); (width - 3, 2)]%Z 2) (rgb 180 180 180) img in
  inr img.

(** Source lines 112-117, one crystal of the ice texture. *)
Definition ice_spot (width height : Z) (i : nat) (st : rng * image8)
  : exn + (rng * image8) :=
  let '(g, img) := st in
  '(x, g) <-! randint 0 width g ;;
  '(y, g) <-! randint 0 height g ;;
  '(size, g) <-! randint 2 6 g ;;
  inr (g, paint (ellipse_fill x y (x + size) (y + size))
                (Rgba8 200 230 255 200) img).

(** Source lines 100-125. *)
Definition create_ice_texture (width height : Z) : exn + image8 :=
  img <-! Image_new width height (Rgba8 0 0 0 0) ;;
  let ice_color := Rgba8 173 216 230 240 in
  let img := paint (rectangle_fill 0 0 width height) ice_color img in
  '(g, img) <-! for_range_exn 30 (ice_spot width height) (seed 123, img) ;;
  let img := paint (rectangle_outline 0 0 (width - 1) (height - 1) 2)
                   (rgb 100 150 200) img in
  let img := paint (line [(0, 1); (width, 1)]%Z 2) (rgb 220 240 255) img in
  inr img.

(** Source lines 147-161, one spot of the ramp texture. *)
Definition ramp_spot (width height : Z) (facing_right : bool) (i : nat)
           (st : rng * image8) : exn + (rng * image8) :=
  let '(g, img) := st in
  '(x, g) <-! (if facing_right then randint (width / 2) width g
               else randint 0 (width / 2) g) ;;
  '(y, g) <-! randint 0 height g ;;
  '(size, g) <-! randint 2 6 g ;;
  '(shade, g) <-! randint (-20) 20 g ;;
  let color := rgb (shaded 179 shade) (shaded 153 shade) (shaded 102 shade) in
  inr (g, paint (ellipse_fill x y (x + size) (y + size)) color img).

(** Source lines 127-166. *)
Definition create_ramp_texture (width height : Z) (facing_right : bool)
  : exn + image8 :=
  img <-! Image_new width height (Rgba8 0 0 0 0) ;;
  let ramp_color := rgb 179 153 102 in
  let points :=
    if facing_right then [(0, height); (width, height); (width, 0)]%Z
    else [(0, height); (width, height); (0, 0)]%Z in
  let img := paint (polygon_fill points) ramp_color img in
  '(g, img) <-! for_range_exn 40 (ramp_spot width height facing_right)
                              (seed 456, img) ;;
  let img := paint (polygon_outline points 3) (rgb 128 109 73) img in
  inr img.

(** Source lines 168-184. *)
Definition create_spike_texture (width height : Z) : exn + image8 :=
  img <-! Image_new width height (Rgba8 0 0 0 0) ;;
  let spike_color := rgb 200 0 0 in
  let points := [(width / 2, 0); (width, height); (0, height)]%Z in
  let img := paint (polygon_fill points) spike_color img in
  let img := paint (polygon_outline points 2) (rgb 120 0 0) img in
  let img := paint (line [(width / 2, 0); (0, height)]%Z 2)
                   (rgb 255 100 100) img in
  inr img.

End Textures.

(** A rasteriser and a generator on which the texture functions can be
    run: every ellipse is drawn as its bounding box and the other shapes
    are left out; [randint] returns the lower end of its range. *)
Definition box_draw : ImageDraw := {|
  ellipse_fill := rectangle_fill;
  ellipse_outline := fun _ _ _ _ _ _ _ => false;
  rectangle_outline := fun _ _ _ _ _ _ _ => false;
  line := fun _ _ _ _ => false;
  polygon_fill := fun _ _ _ => false;
  polygon_outline := fun _ _ _ _ => false;
  arc := fun _ _ _ _ _ _ _ _ _ => false
|}.

Definition lowest_random : Random := {|
  rng := unit;
  seed := fun _ => tt;
  randint := fun a b g =>
    if (b <? a)%Z then inl "ValueError"%string else inr (a, g)
|}.


(** ** The resampler contract as the specification words it *)

(** Python's [round]: to the nearest integer, ties to the even one. *)
Definition py_round (q : Q) : Z :=
  let f := Qfloor q in
  let d := q - inject_Z f in
  if Qlt_bool d (1 # 2) then f
  else if Qlt_bool (1 # 2) d then (f + 1)%Z
  else if Z.even f then f else (f + 1)%Z.

(** target_width = round(target_height * cropped_width / cropped_height) *)
Definition rounded_target_size (cropped_width cropped_height : Z) : Z * Z :=
  (py_round (inject_Z target_height * inject_Z cropped_width
             / inject_Z cropped_height),
   target_height).

(** A zero height is rejected by a guard of its own before any division. *)
Definition guarded_target_size (cropped_width cropped_height : Z)
  : exn + (Z * Z) :=
  if (cropped_height =? 0)%Z then inl "DegenerateGeometryError"%string
  else target_size cropped_width cropped_height.

(** ** [np.std] over the reals *)


(** * Properties *)

(** Linear arithmetic over [Q] and over [R]. *)
Ltac qlra := Lqa.lra.

Section StdDev.





End StdDev.

Section Classifier.




Lemma np_clip_bounds a lo hi : lo <= hi -> lo <= np_clip a lo hi <= hi.
Proof.
  intros H. unfold np_clip. split.
  - apply Q.min_glb; [apply Q.le_max_r | exact H].
  - apply Q.le_min_r.
Qed.




Lemma alpha_factor_range r g b : 0 <= alpha_factor r g b <= 1.
Proof.
  unfold alpha_factor, classify.
  destruct (Qle_bool _ _); [destruct (std_lt _ _ _ _)|];
    try (split; [apply Qle_refl | discriminate]).
  apply np_clip_bounds. discriminate.
Qed.

End Classifier.




Section TargetSize.

Lemma py_int_floor q : 0 <= q -> py_int q = Qfloor q.
Proof.
  destruct q as [n d]. unfold Qle, py_int, Qfloor. simpl.
  intros H. apply Z.quot_div_nonneg; lia.
Qed.

Lemma target_size_pos w h :
  (0 < h)%Z ->
  target_size w h =
  inr (py_int (inject_Z target_height * (inject_Z w / inject_Z h)),
       target_height).
Proof.
  intros Hh. unfold target_size, py_truediv.
  destruct (Z.eqb_spec h 0); [lia | reflexivity].
Qed.

Lemma scaled_ratio_nonneg w h :
  (0 <= w)%Z -> (0 < h)%Z ->
  0 <= inject_Z target_height * (inject_Z w / inject_Z h).
Proof.
  intros Hw Hh. apply Qmult_le_0_compat; [discriminate|].
  apply Qle_shift_div_l.
  - change 0 with (inject_Z 0). rewrite <- Zlt_Qlt. exact Hh.
  - rewrite Qmult_0_l. change 0 with (inject_Z 0). rewrite <- Zle_Qle. exact Hw.
Qed.

Lemma target_width_div w h :
  (0 <= w)%Z -> (0 < h)%Z ->
  py_int (inject_Z target_height * (inject_Z w / inject_Z h))
  = (target_height * w / h)%Z.
Proof.
  intros Hw Hh. rewrite py_int_floor by (apply scaled_ratio_nonneg; assumption).
  destruct h as [|p|p]; try lia.
  unfold Qfloor, Qdiv, Qinv, Qmult, inject_Z. simpl Qnum. simpl Qden.
  rewrite Z.mul_1_r. reflexivity.
Qed.

End TargetSize.

Section Shapes.

Context {A : Type}.

Lemma shape_width (w h : nat) (img : list (list A)) :
  shape w h img -> (0 < h)%nat -> im_width img = w.
Proof.
  intros [Hlen Hrows] Hh. destruct img as [|row rest]; simpl in *; [lia|].
  inversion Hrows; subst. reflexivity.
Qed.

Lemma shape_height (w h : nat) (img : list (list A)) :
  shape w h img -> im_height img = h.
Proof. intros [Hlen _]. exact Hlen. Qed.

Lemma shape_lookup (w h : nat) (img : list (list A)) y row :
  shape w h img -> img !! y = Some row -> length row = w.
Proof.
  intros [_ Hrows] Hy. rewrite Forall_lookup in Hrows. exact (Hrows _ _ Hy).
Qed.

Lemma shape_map {B} (f : A -> B) (w h : nat) (img : list (list A)) :
  shape w h img -> shape w h (map (map f) img).
Proof.
  intros [Hlen Hrows]. split.
  - rewrite length_map. exact Hlen.
  - apply Forall_map. eapply Forall_impl; [exact Hrows|].
    intros row Hrow. simpl. rewrite length_map. exact Hrow.
Qed.

End Shapes.

Section ResizeShape.

Variable lanczos : nat -> nat -> coeffs.

Lemma ResampleHorizontal_shape cf xsize w h img :
  shape w h img -> shape xsize h (ResampleHorizontal cf xsize img).
Proof.
  intros [Hlen _]. unfold ResampleHorizontal. split.
  - rewrite length_map. exact Hlen.
  - apply Forall_map, Forall_forall. intros row _. simpl.
    unfold resample_line. rewrite length_map, length_seq. reflexivity.
Qed.

Lemma ResampleVertical_shape cf ysize img :
  shape (im_width img) ysize (ResampleVertical cf ysize img).
Proof.
  unfold ResampleVertical. split.
  - rewrite length_map, length_seq. reflexivity.
  - apply Forall_map, Forall_forall. intros yy _. simpl.
    rewrite length_map, length_seq. reflexivity.
Qed.

Lemma ImagingResample_shape w h img xsize ysize :
  shape w h img -> (0 < h)%nat -> (0 < ysize)%nat ->
  shape xsize ysize (ImagingResample lanczos img xsize ysize).
Proof.
  intros Hs Hh Hy. unfold ImagingResample. cbv zeta.
  rewrite (shape_width _ _ _ Hs Hh), (shape_height _ _ _ Hs).
  assert (Hv : forall img1, shape xsize h img1 ->
               shape xsize ysize
                 (if negb (ysize =? h)%nat
                  then ResampleVertical (lanczos (im_height img1) ysize) ysize img1
                  else img1)).
  { intros img1 Hs1.
    destruct (Nat.eqb_spec ysize h) as [->|Hne]; simpl.
    - exact Hs1.
    - rewrite <- (shape_width _ _ _ Hs1 Hh) at 1.
      apply ResampleVertical_shape. }
  destruct (Nat.eqb_spec xsize w) as [->|Hne]; simpl negb; cbv iota.
  - apply Hv, Hs.
  - apply Hv. eapply ResampleHorizontal_shape, Hs.
Qed.

Lemma resize_shape w h img (xsize ysize : Z) :
  shape w h img -> (0 < h)%nat -> (1 <= xsize)%Z -> (1 <= ysize)%Z ->
  exists out, resize lanczos img (xsize, ysize) = inr out /\
              shape (Z.to_nat xsize) (Z.to_nat ysize) out.
Proof.
  intros Hs Hh Hx Hy. unfold resize.
  rewrite (shape_width _ _ _ Hs Hh), (shape_height _ _ _ Hs).
  destruct (Z.eqb_spec xsize (Z.of_nat w)) as [->|Hxw];
    [destruct (Z.eqb_spec ysize (Z.of_nat h)) as [->|Hyh]|]; simpl.
  - exists img. split; [reflexivity|]. rewrite !Nat2Z.id. exact Hs.
  - destruct (Z.ltb_spec (Z.of_nat w) 1); [lia|].
    destruct (Z.ltb_spec ysize 1); [lia|]. simpl.
    eexists. split; [reflexivity|].
    apply shape_map. eapply ImagingResample_shape; [|exact Hh|lia].
    apply shape_map, Hs.
  - destruct (Z.ltb_spec xsize 1); [lia|].
    destruct (Z.ltb_spec ysize 1); [lia|]. simpl.
    eexists. split; [reflexivity|].
    apply shape_map. eapply ImagingResample_shape; [|exact Hh|lia].
    apply shape_map, Hs.
Qed.

End ResizeShape.

Section TargetSizeBounds.

Lemma scaled_ratio_assoc w h :
  inject_Z target_height * inject_Z w / inject_Z h
  == inject_Z target_height * (inject_Z w / inject_Z h).
Proof. unfold Qdiv. rewrite Qmult_assoc. reflexivity. Qed.

Lemma floor_bounds q : inject_Z (Qfloor q) <= q /\ q < inject_Z (Qfloor q) + 1.
Proof.
  split; [apply Qfloor_le|].
  pose proof (Qlt_floor q) as H. rewrite inject_Z_plus in H. exact H.
Qed.

Lemma target_width_bounds w h :
  (0 <= w)%Z -> (0 < h)%Z ->
  let tw := (target_height * w / h)%Z in
  inject_Z tw <= inject_Z target_height * inject_Z w / inject_Z h /\
  inject_Z target_height * inject_Z w / inject_Z h < inject_Z tw + 1.
Proof.
  intros Hw Hh tw. subst tw.
  rewrite <- (target_width_div w h Hw Hh).
  rewrite py_int_floor by (apply scaled_ratio_nonneg; assumption).
  rewrite scaled_ratio_assoc. apply floor_bounds.
Qed.

End TargetSizeBounds.

Section Binary64.

(** On every crop of at most 200 x 200 samples the binary64 evaluation of
    lines 77-80 gives the width of the rational embedding. *)
Lemma binary64_agrees_200 : binary64_agrees 200 = true.
Proof. vm_compute. reflexivity. Qed.

Lemma binary64_at_5_6 : target_width_binary64 5 6 = 66%Z.
Proof. vm_compute. reflexivity. Qed.

Lemma binary64_at_80_130 : target_width_binary64 80 130 = 49%Z.
Proof. vm_compute. reflexivity. Qed.

End Binary64.

(** C4, refuted as worded: for a 5 x 6 crop the script asks for width 66,
    while round(80 * 5 / 6) is 67. *)
Lemma target_width_is_not_rounded :
  target_size 5 6 = inr (66, 80)%Z /\
  rounded_target_size 5 6 = (67, 80)%Z /\
  target_size 5 6 <> inr (rounded_target_size 5 6).
Proof. repeat split. discriminate. Qed.

(** A crop 200 times as tall as wide gets the target width 0, which
    [resize] rejects. *)
Lemma thin_crop_is_rejected (lanczos : nat -> nat -> coeffs) :
  target_size 1 200 = inr (0, 80)%Z /\
  resize lanczos (replicate 200 [red]) (0, 80)%Z = inl "ValueError"%string.
Proof. split; reflexivity. Qed.

(** C4, as the code has it: for a crop of w x h samples with h > 0 the
    target width is 80 * w / h with the fraction dropped (the integer
    quotient), the target height is 80, and whenever that width is at
    least 1 the resampled image has exactly that width and height. *)
Theorem target_size_truncated (lanczos : nat -> nat -> coeffs)
        (img : image8) (w h : nat) :
  shape w h img -> (0 < h)%nat ->
  let tw := (target_height * Z.of_nat w / Z.of_nat h)%Z in
  target_size (Z.of_nat w) (Z.of_nat h) = inr (tw, target_height) /\
  (inject_Z tw <= inject_Z target_height * inject_Z (Z.of_nat w)
                  / inject_Z (Z.of_nat h) /\
   inject_Z target_height * inject_Z (Z.of_nat w) / inject_Z (Z.of_nat h)
   < inject_Z tw + 1) /\
  ((1 <= tw)%Z ->
   exists out, resize lanczos img (tw, target_height) = inr out /\
               shape (Z.to_nat tw) (Z.to_nat target_height) out).
Proof.
  intros Hs Hh tw. split; [|split].
  - rewrite target_size_pos by lia. subst tw.
    rewrite target_width_div by lia. reflexivity.
  - apply target_width_bounds; lia.
  - intros Htw. eapply resize_shape; [exact Hs | exact Hh | exact Htw |].
    unfold target_height. lia.
Qed.

Lemma target_size_truncated_witness :
  target_size 2 1 = inr (160, 80)%Z /\
  exists out, resize (fun _ _ xx => (0%nat, [4194304%Z]))
                     [[Rgba8 9 9 9 255; Rgba8 9 9 9 255]] (160, 80)%Z = inr out /\
              shape 160 80 out.
Proof.
  pose proof (target_size_truncated (fun _ _ xx => (0%nat, [4194304%Z]))
                [[Rgba8 9 9 9 255; Rgba8 9 9 9 255]] 2%nat 1%nat) as H.
  destruct H as (H1 & _ & H3).
  - split; [reflexivity|]. repeat constructor.
  - lia.
  - split; [exact H1|]. apply H3. vm_compute. discriminate.
Defined.

(** C7, refuted as worded: with a crop of height 0 the division is carried
    out with a zero denominator and raises ZeroDivisionError; no guard
    reports a DegenerateGeometryError first. *)
Lemma zero_height_is_not_guarded :
  py_truediv 5 0 = inl "ZeroDivisionError"%string /\
  target_size 5 0 = inl "ZeroDivisionError"%string /\
  target_size 5 0 <> guarded_target_size 5 0.
Proof. repeat split. discriminate. Qed.

(** C7, as the code has it: there is no guard before the division; a crop
    of height 0 makes the division itself raise ZeroDivisionError, which
    ends the run (as on the image without rows), and a crop of any other
    height yields a target size. *)
Theorem zero_height_raises :
  (forall w, target_size w 0 = inl "ZeroDivisionError"%string) /\
  (forall w h, h <> 0%Z ->
               exists tw, target_size w h = inr (tw, target_height)) /\
  (forall w h e, target_size w h = inl e ->
                 h = 0%Z /\ e = "ZeroDivisionError"%string) /\
  (forall lanczos,
      remove_background_hd lanczos [] = inl "ZeroDivisionError"%string).
Proof.
  split; [intros w; reflexivity|]. split; [|split].
  - intros w h Hh. unfold target_size, py_truediv.
    destruct (Z.eqb_spec h 0); [contradiction|]. eexists. reflexivity.
  - intros w h e. unfold target_size, py_truediv.
    destruct (Z.eqb_spec h 0); [|discriminate].
    intros [= <-]. split; [assumption | reflexivity].
  - intros lanczos. reflexivity.
Qed.

(** C8: for a crop of positive width and height the target width differs
    from 80 * width / height by at most 1. *)
Theorem aspect_ratio_preserved (w h : Z) :
  (0 < w)%Z -> (0 < h)%Z ->
  exists tw, target_size w h = inr (tw, 80%Z) /\
             Qabs (inject_Z tw - 80 * inject_Z w / inject_Z h) <= 1.
Proof.
  intros Hw Hh. exists (target_height * w / h)%Z. split.
  - rewrite target_size_pos by lia. rewrite target_width_div by lia. reflexivity.
  - destruct (target_width_bounds w h) as [Hlo Hhi]; [lia | lia |].
    cbv zeta in Hlo, Hhi. change (inject_Z target_height) with 80 in Hlo, Hhi.
    apply Qabs_Qle_condition. split; qlra.
Qed.

Lemma aspect_ratio_preserved_witness :
  exists tw, target_size 80 130 = inr (tw, 80%Z) /\
             Qabs (inject_Z tw - 80 * inject_Z 80 / inject_Z 130) <= 1.
Proof. apply aspect_ratio_preserved; lia. Defined.

Section PrefixZip.

Context {A B : Type} (f : A -> B -> B).

Lemma prefix_zip_0 (l : list A) (k : list B) : prefix_zip f 0 l k = k.
Proof. unfold prefix_zip. rewrite !take_0, drop_0. reflexivity. Qed.

Lemma prefix_zip_lookup_ge n (l : list A) (k : list B) i :
  length l = length k -> (n <= i)%nat -> prefix_zip f n l k !! i = k !! i.
Proof.
  intros Hlen Hi. unfold prefix_zip.
  destruct (le_lt_dec (length k) n) as [Hbig|Hsmall].
  - rewrite drop_ge, app_nil_r by lia.
    rewrite (lookup_ge_None_2 k) by lia.
    apply lookup_ge_None_2. rewrite length_zip_with, !length_take. lia.
  - rewrite lookup_app_r; rewrite length_zip_with, !length_take;
      [|lia]. rewrite lookup_drop. f_equal. lia.
Qed.

Lemma prefix_zip_S n (l : list A) (k : list B) a b :
  length l = length k -> l !! n = Some a -> k !! n = Some b ->
  <[n := f a b]> (prefix_zip f n l k) = prefix_zip f (S n) l k.
Proof.
  intros Hlen Ha Hb. unfold prefix_zip.
  pose proof (lookup_lt_Some _ _ _ Ha) as Hn.
  rewrite (take_S_r l n a Ha), (take_S_r k n b Hb).
  rewrite zip_with_app by (rewrite !length_take; lia).
  rewrite insert_app_r_alt; rewrite length_zip_with, !length_take; [|lia].
  replace (n - ((n `min` length l) `min` (n `min` length k)))%nat with 0%nat by lia.
  rewrite (drop_S k b n Hb). simpl. rewrite <- app_assoc. reflexivity.
Qed.

Lemma prefix_zip_all n (l : list A) (k : list B) :
  length l = length k -> n = length k -> prefix_zip f n l k = zip_with f l k.
Proof.
  intros Hlen ->. unfold prefix_zip.
  rewrite !take_ge, drop_ge, app_nil_r by lia. reflexivity.
Qed.

End PrefixZip.

Section Loops.

Context {S : Type}.

Lemma for_range_0 (body : nat -> S -> option S) s : for_range 0 body s = Some s.
Proof. reflexivity. Qed.

Lemma for_range_S n (body : nat -> S -> option S) s :
  for_range (Datatypes.S n) body s = for_range n body s ≫= body n.
Proof.
  unfold for_range. rewrite seq_S, foldl_app. reflexivity.
Qed.

End Loops.

Section Compositor.

Lemma np_array_shape w h (img : image8) : shape w h img -> shape w h (np_array img).
Proof. apply shape_map. Qed.

Lemma init_result (w h : nat) (D : ndarray) :
  shape w h D ->
  fill_alpha 255 (copy_rgb (np_zeros h w) D)
  = map (map (fun d => Rgbaf (fl_r d) (fl_g d) (fl_b d) 255)) D.
Proof.
  intros [Hlen Hrows]. revert h Hlen.
  unfold fill_alpha, copy_rgb, np_zeros.
  induction Hrows as [|row rest Hrow Hrest IH]; intros h Hlen.
  - destruct h; reflexivity.
  - destruct h as [|h]; [discriminate|]. simpl in Hlen.
    simpl. f_equal.
    + rewrite zip_with_replicate_l by lia.
      change (?f <$> ?l) with (map f l). rewrite map_map. reflexivity.
    + apply IH. lia.
Qed.

Lemma zip_px_step_init (D : ndarray) :
  zip_with (zip_with px_step) D
           (map (map (fun d => Rgbaf (fl_r d) (fl_g d) (fl_b d) 255)) D)
  = map (map composite_px) D.
Proof.
  induction D as [|row rest IH]; [reflexivity|].
  simpl. f_equal; [|exact IH].
  change (map ?f row) with (f <$> row).
  rewrite zip_with_fmap_r, zip_with_diag. reflexivity.
Qed.

Lemma row_loop (D R : ndarray) y drow rrow w c0 n :
  D !! y = Some drow -> R !! y = Some rrow ->
  length drow = w -> length rrow = w -> (n <= w)%nat ->
  exists c,
    for_range n (pixel_body y) (Store D R c0)
    = Some (Store D (<[y := prefix_zip px_step n drow rrow]> R) c).
Proof.
  intros HD HR Hd Hr. induction n as [|n IH]; intros Hn.
  - exists c0. rewrite for_range_0, prefix_zip_0.
    rewrite list_insert_id by exact HR. reflexivity.
  - destruct IH as [c IH]; [lia|].
    rewrite for_range_S, IH. simpl.
    destruct (lookup_lt_is_Some_2 drow n) as [d Hdn]; [lia|].
    destruct (lookup_lt_is_Some_2 rrow n) as [p Hpn]; [lia|].
    pose proof (prefix_zip_S px_step n drow rrow d p) as Hstep.
    specialize (Hstep ltac:(lia) Hdn Hpn).
    assert (Hcur : prefix_zip px_step n drow rrow !! n = Some p).
    { rewrite prefix_zip_lookup_ge by lia. exact Hpn. }
    unfold pixel_body, getitem. simpl. rewrite HD. simpl. rewrite Hdn. simpl.
    destruct (classify (fl_r d) (fl_g d) (fl_b d)) as [af|] eqn:E.
    + assert (Hpx : px_step d p
                    = Rgbaf (fl_r p) (fl_g p) (fl_b p) (255 * (1 - af)))
        by (unfold px_step; rewrite E; reflexivity).
      rewrite Hpx in Hstep. unfold setitem_alpha.
      rewrite list_lookup_insert_eq by (eapply lookup_lt_Some; exact HR).
      simpl. rewrite Hcur. simpl.
      rewrite list_insert_insert_eq, Hstep. eexists. reflexivity.
    + assert (Hpx : px_step d p = p)
        by (unfold px_step; rewrite E; reflexivity).
      rewrite Hpx in Hstep.
      exists c. rewrite <- Hstep, (list_insert_id _ n p) by exact Hcur.
      reflexivity.
Qed.

Lemma rows_loop (D R : ndarray) w h c0 m :
  shape w h D -> shape w h R -> (m <= h)%nat ->
  exists c,
    for_range m (fun y => for_range w (pixel_body y)) (Store D R c0)
    = Some (Store D (prefix_zip (zip_with px_step) m D R) c).
Proof.
  intros HD HR. induction m as [|m IH]; intros Hm.
  - exists c0. rewrite for_range_0, prefix_zip_0. reflexivity.
  - destruct IH as [c IH]; [lia|].
    rewrite for_range_S, IH. simpl.
    destruct HD as [HDlen HDrows]. destruct HR as [HRlen HRrows].
    destruct (lookup_lt_is_Some_2 D m) as [drow Hdm]; [lia|].
    destruct (lookup_lt_is_Some_2 R m) as [rrow Hrm]; [lia|].
    assert (Hdw : length drow = w).
    { rewrite Forall_lookup in HDrows. exact (HDrows _ _ Hdm). }
    assert (Hrw : length rrow = w).
    { rewrite Forall_lookup in HRrows. exact (HRrows _ _ Hrm). }
    assert (Hcur : prefix_zip (zip_with px_step) m D R !! m = Some rrow).
    { rewrite prefix_zip_lookup_ge by lia. exact Hrm. }
    destruct (row_loop D _ m drow rrow w c w Hdm Hcur Hdw Hrw) as [c' Hrow];
      [lia|].
    rewrite Hrow. exists c'. do 2 f_equal.
    rewrite (prefix_zip_all px_step w drow rrow) by lia.
    apply prefix_zip_S; [lia | exact Hdm | exact Hrm].
Qed.

(** The two loops terminate without an IndexError, leave [data] as it was
    and turn [result] into the sample-wise image of [data]. *)
Lemma composite_closed_form w h (img : image8) :
  shape w h img ->
  exists c, composite img
            = Some (Store (np_array img)
                          (map (map composite_px) (np_array img)) c).
Proof.
  intros Hs. unfold composite. cbv zeta.
  destruct h as [|h].
  - destruct Hs as [Hlen _]. destruct img; [|discriminate].
    exists 0%nat. reflexivity.
  - rewrite (shape_width _ _ _ Hs) by lia. rewrite (shape_height _ _ _ Hs).
    pose proof (np_array_shape _ _ _ Hs) as HD.
    rewrite (init_result _ _ _ HD).
    destruct (rows_loop (np_array img)
                (map (map (fun d => Rgbaf (fl_r d) (fl_g d) (fl_b d) 255))
                     (np_array img)) w (S h) 0%nat (S h) HD) as [c Hc].
    + apply shape_map, HD.
    + lia.
    + rewrite Hc. exists c. do 2 f_equal.
      rewrite prefix_zip_all.
      * apply zip_px_step_init.
      * rewrite !length_map. reflexivity.
      * rewrite !length_map. destruct HD as [HDlen _].
        rewrite <- HDlen. unfold np_array. rewrite length_map. reflexivity.
Qed.

End Compositor.

Section Pointwise.

Context {A B : Type}.

Lemma getitem_map (f : A -> B) (l : list (list A)) y x :
  getitem (map (map f) l) y x = f <$> getitem l y x.
Proof.
  unfold getitem. change (map (map f) l) with (map f <$> l).
  rewrite list_lookup_fmap. destruct (l !! y) as [row|]; simpl; [|reflexivity].
  change (map f row) with (f <$> row). apply list_lookup_fmap.
Qed.

Lemma getitem_Some_lt w h (l : list (list A)) y x a :
  shape w h l -> getitem l y x = Some a -> (y < h)%nat /\ (x < w)%nat.
Proof.
  intros Hs. unfold getitem. destruct (l !! y) as [row|] eqn:Hrow; [|discriminate].
  simpl. intros Hx. split.
  - destruct Hs as [<- _]. eapply lookup_lt_Some, Hrow.
  - rewrite <- (shape_lookup _ _ _ _ _ Hs Hrow). eapply lookup_lt_Some, Hx.
Qed.

Lemma nested_map_ext (f : A -> B) w h (l1 l2 : list (list A)) :
  shape w h l1 -> shape w h l2 ->
  (forall y x a b, getitem l1 y x = Some a -> getitem l2 y x = Some b ->
                   f a = f b) ->
  map (map f) l1 = map (map f) l2.
Proof.
  intros H1 H2 Hf. apply list_eq. intros y.
  change (map (map f) ?l) with (map f <$> l). rewrite !list_lookup_fmap.
  destruct (l1 !! y) as [r1|] eqn:E1; destruct (l2 !! y) as [r2|] eqn:E2; simpl.
  - f_equal. apply list_eq. intros x.
    change (map f ?l) with (f <$> l). rewrite !list_lookup_fmap.
    pose proof (shape_lookup _ _ _ _ _ H1 E1) as L1.
    pose proof (shape_lookup _ _ _ _ _ H2 E2) as L2.
    destruct (r1 !! x) as [a|] eqn:Ea; destruct (r2 !! x) as [b|] eqn:Eb; simpl.
    + f_equal. apply (Hf y x); unfold getitem.
      * rewrite E1. exact Ea.
      * rewrite E2. exact Eb.
    + apply lookup_lt_Some in Ea. apply lookup_ge_None in Eb. lia.
    + apply lookup_lt_Some in Eb. apply lookup_ge_None in Ea. lia.
    + reflexivity.
  - apply lookup_lt_Some in E1. apply lookup_ge_None in E2.
    destruct H1, H2. lia.
  - apply lookup_lt_Some in E2. apply lookup_ge_None in E1.
    destruct H1, H2. lia.
  - reflexivity.
Qed.

End Pointwise.

Section CompositedSample.

Lemma composite_px_rgb d :
  fl_r (composite_px d) = fl_r d /\ fl_g (composite_px d) = fl_g d /\
  fl_b (composite_px d) = fl_b d.
Proof.
  unfold composite_px, px_step.
  destruct (classify _ _ _); repeat split.
Qed.

Lemma composite_px_alpha d :
  fl_a (composite_px d) == 255 * (1 - alpha_factor (fl_r d) (fl_g d) (fl_b d)).
Proof.
  unfold composite_px, px_step, alpha_factor.
  destruct (classify _ _ _); simpl; [reflexivity|]. reflexivity.
Qed.

Lemma composite_px_skipped d :
  classify (fl_r d) (fl_g d) (fl_b d) = None -> fl_a (composite_px d) = 255.
Proof. unfold composite_px, px_step. intros ->. reflexivity. Qed.

Lemma composite_px_same_rgb p q :
  same_rgb p q -> composite_px (to_float32 p) = composite_px (to_float32 q).
Proof.
  intros (Hr & Hg & Hb). unfold composite_px, px_step, to_float32. simpl.
  rewrite Hr, Hg, Hb. reflexivity.
Qed.

End CompositedSample.

Section BackToUint8.

Lemma np_clip_id q lo hi : lo <= q -> q <= hi -> np_clip q lo hi == q.
Proof.
  intros Hlo Hhi. unfold np_clip.
  rewrite (Q.max_l q lo) by exact Hlo. apply Q.min_l. exact Hhi.
Qed.

Lemma to_uint8_channel z : (0 <= z <= 255)%Z -> to_uint8 (inject_Z z) = z.
Proof.
  intros [H0 H1]. unfold to_uint8.
  rewrite (Qfloor_comp _ (inject_Z z)); [apply Qfloor_Z|].
  apply np_clip_id.
  - change 0 with (inject_Z 0). rewrite <- Zle_Qle. exact H0.
  - change 255 with (inject_Z 255). rewrite <- Zle_Qle. exact H1.
Qed.

(** Line 63 on a composited sample: the colours come back as they were
    read, the alpha loses its fraction. *)
Lemma composited_sample_uint8 p :
  px_valid p ->
  let q := composite_px (to_float32 p) in
  to_uint8 (fl_r q) = px_r p /\ to_uint8 (fl_g q) = px_g p /\
  to_uint8 (fl_b q) = px_b p /\
  to_uint8 (fl_a q)
  = Qfloor (255 * (1 - alpha_factor (inject_Z (px_r p)) (inject_Z (px_g p))
                                    (inject_Z (px_b p)))).
Proof.
  intros (Hr & Hg & Hb & _) q. subst q.
  destruct (composite_px_rgb (to_float32 p)) as (Er & Eg & Eb).
  rewrite Er, Eg, Eb. simpl fl_r. simpl fl_g. simpl fl_b.
  rewrite !to_uint8_channel by assumption. repeat split.
  unfold to_uint8. apply Qfloor_comp.
  pose proof (composite_px_alpha (to_float32 p)) as Ha.
  simpl fl_r in Ha. simpl fl_g in Ha. simpl fl_b in Ha.
  pose proof (alpha_factor_range (inject_Z (px_r p)) (inject_Z (px_g p))
                                 (inject_Z (px_b p))) as [Hlo Hhi].
  rewrite <- Ha. apply np_clip_id; rewrite Ha; qlra.
Qed.

(** On 8-bit samples a non-zero alpha is an alpha greater than 0. *)
Lemma alpha_nonzero_positive p :
  px_valid p -> (px_a p <> 0%Z <-> (0 < px_a p)%Z).
Proof. intros (_ & _ & _ & Ha). lia. Qed.

End BackToUint8.



(** C10: two inputs of one shape whose samples agree on R, G and B are
    composited to the same array, whatever their alpha channels hold; a
    sample that the classifier skips comes out with alpha 255. *)
Theorem composite_ignores_alpha (w h : nat) (img1 img2 : image8) :
  shape w h img1 -> shape w h img2 ->
  (forall y x p1 p2,
      getitem img1 y x = Some p1 -> getitem img2 y x = Some p2 ->
      same_rgb p1 p2) ->
  exists st1 st2,
    composite img1 = Some st1 /\ composite img2 = Some st2 /\
    result st1 = result st2 /\
    astype_uint8 (result st1) = astype_uint8 (result st2) /\
    forall y x p,
      getitem img1 y x = Some p ->
      classify (inject_Z (px_r p)) (inject_Z (px_g p)) (inject_Z (px_b p))
      = None ->
      exists q, getitem (result st1) y x = Some q /\ fl_a q = 255.
Proof.
  intros H1 H2 Hrgb.
  destruct (composite_closed_form w h img1 H1) as [c1 Hc1].
  destruct (composite_closed_form w h img2 H2) as [c2 Hc2].
  assert (Heq : map (map composite_px) (np_array img1)
                = map (map composite_px) (np_array img2)).
  { unfold np_array. rewrite !map_map.
    rewrite (map_ext _ (map (fun p => composite_px (to_float32 p))))
      by (intros row; apply map_map).
    rewrite (map_ext (fun row => map composite_px (map to_float32 row))
                     (map (fun p => composite_px (to_float32 p))))
      by (intros row; apply map_map).
    apply (nested_map_ext _ w h); [exact H1 | exact H2|].
    intros y x a b Ha Hb. apply composite_px_same_rgb. eapply Hrgb; eassumption. }
  eexists. eexists. split; [exact Hc1|]. split; [exact Hc2|]. simpl.
  split; [exact Heq|]. split; [rewrite Heq; reflexivity|].
  intros y x p Hp Hskip. exists (composite_px (to_float32 p)). split.
  - rewrite getitem_map. unfold np_array. rewrite getitem_map, Hp. reflexivity.
  - apply composite_px_skipped. exact Hskip.
Qed.

Lemma composite_ignores_alpha_witness :
  exists st1 st2,
    composite [[Rgba8 255 255 255 7; Rgba8 200 30 30 7]] = Some st1 /\
    composite [[Rgba8 255 255 255 200; Rgba8 200 30 30 0]] = Some st2 /\
    result st1 = result st2 /\
    astype_uint8 (result st1) = astype_uint8 (result st2) /\
    forall y x p,
      getitem [[Rgba8 255 255 255 7; Rgba8 200 30 30 7]] y x = Some p ->
      classify (inject_Z (px_r p)) (inject_Z (px_g p)) (inject_Z (px_b p))
      = None ->
      exists q, getitem (result st1) y x = Some q /\ fl_a q = 255.
Proof.
  apply (composite_ignores_alpha 2 1).
  - split; [reflexivity|]. repeat constructor.
  - split; [reflexivity|]. repeat constructor.
  - intros [|[|y]] [|[|x]] p1 p2; simpl; intros [= <-] [= <-];
      repeat split.
Defined.

Section ScanRow.

Lemma rowhit_nil x : ~ rowhit [] x.
Proof. intros (p & Hp & _). discriminate. Qed.

Lemma rowhit_cons_0 p rest : rowhit (p :: rest) 0 <-> px_a p <> 0%Z.
Proof.
  split.
  - intros (q & [= <-] & Hq). exact Hq.
  - intros Hp. exists p. split; [reflexivity | exact Hp].
Qed.

(** One row of the scan: [has_data] records whether the row has content,
    [bbox[0]] only decreases, down to the least content column, and
    [bbox[2]] only increases, up to one past the greatest. *)
Lemma scan_row_spec row : forall x0 has b0 b2 has' b0' b2',
  scan_row row x0 (has, b0, b2) = (has', b0', b2') ->
  (has' = true <-> has = true \/ exists i, rowhit row i) /\
  ((b0' <= b0)%Z /\
   (forall i, rowhit row i -> (b0' <= x0 + Z.of_nat i)%Z) /\
   (b0' = b0 \/ exists i, rowhit row i /\ b0' = (x0 + Z.of_nat i)%Z)) /\
  ((b2 <= b2')%Z /\
   (forall i, rowhit row i -> (x0 + Z.of_nat i < b2')%Z) /\
   (b2' = b2 \/ exists i, rowhit row i /\ b2' = (x0 + Z.of_nat i + 1)%Z)).
Proof.
  induction row as [|p rest IH]; intros x0 has b0 b2 has' b0' b2' H.
  - simpl in H. injection H as <- <- <-.
    split; [|split].
    + split; [auto|]. intros [Hh | [i Hi]]; [exact Hh|].
      destruct (rowhit_nil _ Hi).
    + split; [lia|]. split; [|left; reflexivity].
      intros i Hi. destruct (rowhit_nil _ Hi).
    + split; [lia|]. split; [|left; reflexivity].
      intros i Hi. destruct (rowhit_nil _ Hi).
  - simpl in H. destruct (Z.eqb_spec (px_a p) 0) as [Hz | Hnz]; simpl in H.
    + apply IH in H. destruct H as (Hhas & (Hb0 & Hb0all & Hb0ex) & (Hb2 & Hb2all & Hb2ex)).
      assert (Hhit : forall i, rowhit (p :: rest) i ->
                               exists j, i = S j /\ rowhit rest j).
      { intros [|j] Hi.
        - apply rowhit_cons_0 in Hi. contradiction.
        - exists j. split; [reflexivity | exact Hi]. }
      split; [|split].
      * rewrite Hhas. split; intros [Hh | [i Hi]]; auto.
        -- right. exists (S i). exact Hi.
        -- destruct (Hhit i Hi) as (j & -> & Hj). right. exists j. exact Hj.
      * split; [exact Hb0|]. split.
        -- intros i Hi. destruct (Hhit i Hi) as (j & -> & Hj).
           specialize (Hb0all j Hj). lia.
        -- destruct Hb0ex as [-> | (j & Hj & ->)]; [left; reflexivity|].
           right. exists (S j). split; [exact Hj | lia].
      * split; [exact Hb2|]. split.
        -- intros i Hi. destruct (Hhit i Hi) as (j & -> & Hj).
           specialize (Hb2all j Hj). lia.
        -- destruct Hb2ex as [-> | (j & Hj & ->)]; [left; reflexivity|].
           right. exists (S j). split; [exact Hj | lia].
    + apply IH in H. destruct H as (Hhas & (Hb0 & Hb0all & Hb0ex) & (Hb2 & Hb2all & Hb2ex)).
      assert (H0 : rowhit (p :: rest) 0) by (apply rowhit_cons_0; exact Hnz).
      split; [|split].
      * split; [intros _; right; exists 0%nat; exact H0|].
        intros _. apply Hhas. left. reflexivity.
      * destruct (Z.ltb_spec x0 b0) as [Hlt | Hge].
        -- split; [lia|]. split.
           ++ intros [|j] Hi; [lia|]. specialize (Hb0all j Hi). lia.
           ++ right. destruct Hb0ex as [-> | (j & Hj & ->)].
              ** exists 0%nat. split; [exact H0 | lia].
              ** exists (S j). split; [exact Hj | lia].
        -- split; [lia|]. split.
           ++ intros [|j] Hi; [lia|]. specialize (Hb0all j Hi). lia.
           ++ destruct Hb0ex as [-> | (j & Hj & ->)]; [left; reflexivity|].
              right. exists (S j). split; [exact Hj | lia].
      * destruct (Z.leb_spec b2 x0) as [Hle | Hgt].
        -- split; [lia|]. split.
           ++ intros [|j] Hi; [lia|]. specialize (Hb2all j Hi). lia.
           ++ right. destruct Hb2ex as [-> | (j & Hj & ->)].
              ** exists 0%nat. split; [exact H0 | lia].
              ** exists (S j). split; [exact Hj | lia].
        -- split; [lia|]. split.
           ++ intros [|j] Hi; [lia|]. specialize (Hb2all j Hi). lia.
           ++ destruct Hb2ex as [-> | (j & Hj & ->)]; [left; reflexivity|].
              right. exists (S j). split; [exact Hj | lia].
Qed.

End ScanRow.

Section ScanRows.

Lemma content_nil x y : ~ content [] x y.
Proof. intros (row & Hrow & _). discriminate. Qed.

Lemma content_cons_0 row rest x : content (row :: rest) x 0 <-> rowhit row x.
Proof.
  split.
  - intros (r & [= <-] & Hr). exact Hr.
  - intros Hr. exists row. split; [reflexivity | exact Hr].
Qed.

Lemma content_getitem img x y :
  content img x y <-> exists p, getitem img y x = Some p /\ px_a p <> 0%Z.
Proof.
  unfold content, rowhit, getitem. split.
  - intros (row & Hrow & p & Hp & Ha). exists p. rewrite Hrow. auto.
  - intros (p & Hp & Ha). destruct (img !! y) as [row|]; [|discriminate].
    exists row. split; [reflexivity|]. exists p. auto.
Qed.

(** The columns [bbox[0]] and [bbox[2]] after the rows were scanned. *)
Lemma scan_rows_x rows : forall y0 b0 b1 b2 b3 b0' b1' b2' b3',
  scan_rows rows y0 (b0, b1, b2, b3) = (b0', b1', b2', b3') ->
  ((b0' <= b0)%Z /\
   (forall x y, content rows x y -> (b0' <= Z.of_nat x)%Z) /\
   (b0' = b0 \/ exists x y, content rows x y /\ b0' = Z.of_nat x)) /\
  ((b2 <= b2')%Z /\
   (forall x y, content rows x y -> (Z.of_nat x < b2')%Z) /\
   (b2' = b2 \/ exists x y, content rows x y /\ b2' = (Z.of_nat x + 1)%Z)).
Proof.
  induction rows as [|row rest IH]; intros y0 b0 b1 b2 b3 b0' b1' b2' b3' H.
  - simpl in H. injection H as <- <- <- <-.
    split; (split; [lia|]; split; [|left; reflexivity]);
      intros x y Hc; destruct (content_nil _ _ Hc).
  - simpl in H.
    destruct (scan_row row 0 (false, b0, b2)) as [[has b0a] b2a] eqn:Erow.
    apply scan_row_spec in Erow.
    destruct Erow as (_ & (Ha0 & Ha0all & Ha0ex) & (Ha2 & Ha2all & Ha2ex)).
    assert (Hx : ((b0' <= b0a)%Z /\
       (forall x y, content rest x y -> (b0' <= Z.of_nat x)%Z) /\
       (b0' = b0a \/ exists x y, content rest x y /\ b0' = Z.of_nat x)) /\
      ((b2a <= b2')%Z /\
       (forall x y, content rest x y -> (Z.of_nat x < b2')%Z) /\
       (b2' = b2a \/ exists x y, content rest x y /\ b2' = (Z.of_nat x + 1)%Z))).
    { destruct has; eapply IH; exact H. }
    clear H IH.
    destruct Hx as ((Hr0 & Hr0all & Hr0ex) & (Hr2 & Hr2all & Hr2ex)).
    split.
    + split; [lia|]. split.
      * intros x [|y] Hc.
        -- apply content_cons_0 in Hc. specialize (Ha0all x Hc). lia.
        -- exact (Hr0all x y Hc).
      * destruct Hr0ex as [-> | (x & y & Hc & ->)].
        -- destruct Ha0ex as [-> | (i & Hi & ->)]; [left; reflexivity|].
           right. exists i, 0%nat. split; [apply content_cons_0, Hi | lia].
        -- right. exists x, (S y). split; [exact Hc | reflexivity].
    + split; [lia|]. split.
      * intros x [|y] Hc.
        -- apply content_cons_0 in Hc. specialize (Ha2all x Hc). lia.
        -- exact (Hr2all x y Hc).
      * destruct Hr2ex as [-> | (x & y & Hc & ->)].
        -- destruct Ha2ex as [-> | (i & Hi & ->)]; [left; reflexivity|].
           right. exists i, 0%nat. split; [apply content_cons_0, Hi | lia].
        -- right. exists x, (S y). split; [exact Hc | reflexivity].
Qed.

(** The rows [bbox[1]] and [bbox[3]] after the rows were scanned. *)
Lemma scan_rows_y rows : forall y0 b0 b1 b2 b3 b0' b1' b2' b3',
  (0 <= y0)%Z ->
  scan_rows rows y0 (b0, b1, b2, b3) = (b0', b1', b2', b3') ->
  ((0 <= b1)%Z -> b1' = b1) /\
  ((b1 < 0)%Z ->
   (b1' = b1 /\ forall x y, ~ content rows x y) \/
   (exists x y, content rows x y /\ b1' = (y0 + Z.of_nat y)%Z /\
                forall x' y', content rows x' y' -> (y <= y')%nat)) /\
  (forall x y, content rows x y -> (y0 + Z.of_nat y < b3')%Z) /\
  ((b3' = b3 /\ forall x y, ~ content rows x y) \/
   (exists x y, content rows x y /\ b3' = (y0 + Z.of_nat y + 1)%Z)).
Proof.
  induction rows as [|row rest IH]; intros y0 b0 b1 b2 b3 b0' b1' b2' b3' Hy0 H.
  - simpl in H. injection H as <- <- <- <-.
    split; [auto|]. split; [|split].
    + intros _. left. split; [reflexivity|]. intros x y. apply content_nil.
    + intros x y Hc. destruct (content_nil _ _ Hc).
    + left. split; [reflexivity|]. intros x y. apply content_nil.
  - simpl in H.
    destruct (scan_row row 0 (false, b0, b2)) as [[has b0a] b2a] eqn:Erow.
    apply scan_row_spec in Erow. destruct Erow as (Hhas & _ & _).
    destruct has.
    + assert (Hhit : exists i, rowhit row i).
      { destruct (proj1 Hhas eq_refl) as [Hf | Hi]; [discriminate | exact Hi]. }
      destruct Hhit as [i Hi].
      apply IH in H; [|lia]. clear IH.
      destruct H as (Hb1 & _ & Hb3all & Hb3ex).
      split; [|split; [|split]].
      * intros Hpos. destruct (Z.ltb_spec b1 0); [lia|]. apply Hb1. lia.
      * intros Hneg. right. exists i, 0%nat.
        split; [apply content_cons_0, Hi|]. split; [|intros; lia].
        destruct (Z.ltb_spec b1 0); [|lia]. rewrite Hb1 by lia. lia.
      * intros x [|y] Hc.
        -- destruct Hb3ex as [[-> _] | (x' & y' & _ & ->)]; lia.
        -- specialize (Hb3all x y Hc). lia.
      * right. destruct Hb3ex as [[-> _] | (x' & y' & Hc & ->)].
        -- exists i, 0%nat. split; [apply content_cons_0, Hi | lia].
        -- exists x', (S y'). split; [exact Hc | lia].
    + assert (Hnohit : forall i, ~ rowhit row i).
      { intros i Hi. assert (Hf : false = true) by (apply Hhas; right; eauto).
        discriminate. }
      apply IH in H; [|lia]. clear IH.
      destruct H as (Hb1 & Hb1neg & Hb3all & Hb3ex).
      assert (Hrest : forall x y, content (row :: rest) x y ->
                                  exists y', y = S y' /\ content rest x y').
      { intros x [|y] Hc.
        - apply content_cons_0 in Hc. destruct (Hnohit _ Hc).
        - exists y. split; [reflexivity | exact Hc]. }
      split; [exact Hb1|]. split; [|split].
      * intros Hneg. destruct (Hb1neg Hneg) as [[-> Hno] | (x & y & Hc & -> & Hmin)].
        -- left. split; [reflexivity|]. intros x y Hc.
           destruct (Hrest x y Hc) as (y' & -> & Hc'). exact (Hno x y' Hc').
        -- right. exists x, (S y). split; [exact Hc|]. split; [lia|].
           intros x' y' Hc'. destruct (Hrest x' y' Hc') as (y'' & -> & Hc'').
           specialize (Hmin x' y'' Hc''). lia.
      * intros x y Hc. destruct (Hrest x y Hc) as (y' & -> & Hc').
        specialize (Hb3all x y' Hc'). lia.
      * destruct Hb3ex as [[-> Hno] | (x & y & Hc & ->)].
        -- left. split; [reflexivity|]. intros x y Hc.
           destruct (Hrest x y Hc) as (y' & -> & Hc'). exact (Hno x y' Hc').
        -- right. exists x, (S y). split; [exact Hc | lia].
Qed.

End ScanRows.

Section Cropper.

Lemma content_in_shape w h img x y :
  shape w h img -> content img x y -> (x < w)%nat /\ (y < h)%nat.
Proof.
  intros Hs Hc. apply content_getitem in Hc. destruct Hc as (p & Hp & _).
  destruct (getitem_Some_lt _ _ _ _ _ _ Hs Hp). auto.
Qed.

(** No content: the scan ends with [bbox[1] < 0] and there is no box. *)
Lemma getbbox_empty img : (forall x y, ~ content img x y) -> getbbox img = None.
Proof.
  intros Hno. unfold getbbox.
  destruct (scan_rows img 0 _) as [[[b0 b1] b2] b3] eqn:E.
  apply scan_rows_y in E; [|lia].
  destruct E as (_ & Hb1 & _ & _).
  destruct (Hb1 ltac:(lia)) as [[-> _] | (x & y & Hc & _)]; [reflexivity|].
  destruct (Hno _ _ Hc).
Qed.

(** Some content: the box exists, holds every content position, and each
    of its four sides touches one. *)
Lemma getbbox_tight w h img :
  shape w h img -> (exists x y, content img x y) ->
  exists l u r d : nat,
    getbbox img = Some (Z.of_nat l, Z.of_nat u, Z.of_nat (S r), Z.of_nat (S d)) /\
    (l <= r < w)%nat /\ (u <= d < h)%nat /\
    (forall x y, content img x y -> (l <= x <= r)%nat /\ (u <= y <= d)%nat) /\
    (exists y, content img l y) /\ (exists y, content img r y) /\
    (exists x, content img x u) /\ (exists x, content img x d).
Proof.
  intros Hs (x0 & y0 & Hc0). unfold getbbox.
  destruct (scan_rows img 0 _) as [[[b0 b1] b2] b3] eqn:E.
  pose proof (scan_rows_x _ _ _ _ _ _ _ _ _ _ E) as
      ((_ & H0all & H0ex) & (_ & H2all & H2ex)).
  pose proof (scan_rows_y _ _ _ _ _ _ _ _ _ _ (Z.le_refl 0) E) as
      (_ & H1 & H3all & H3ex).
  clear E.
  pose proof (content_in_shape _ _ _ _ _ Hs Hc0) as [Hx0 Hy0].
  destruct (shape_height _ _ _ Hs).
  assert (Hw : im_width img = w) by (apply (shape_width w (im_height img)); [exact Hs | lia]).
  rewrite Hw in *.
  destruct H0ex as [-> | (xl & yl & Hcl & ->)];
    [specialize (H0all _ _ Hc0); lia|].
  destruct H2ex as [-> | (xr & yr & Hcr & ->)];
    [specialize (H2all _ _ Hc0); lia|].
  destruct (H1 ltac:(lia)) as [[_ Hno] | (xu & yu & Hcu & -> & Hmin)];
    [destruct (Hno _ _ Hc0) |].
  destruct H3ex as [[_ Hno] | (xd & yd & Hcd & ->)];
    [destruct (Hno _ _ Hc0)|].
  destruct (Z.ltb_spec (0 + Z.of_nat yu) 0); [lia|].
  exists xl, yu, xr, yd.
  pose proof (content_in_shape _ _ _ _ _ Hs Hcr) as [Hxr _].
  pose proof (content_in_shape _ _ _ _ _ Hs Hcd) as [_ Hyd].
  pose proof (H0all _ _ Hcr). pose proof (Hmin _ _ Hcd).
  split.
  { replace (0 + Z.of_nat yu)%Z with (Z.of_nat yu) by lia.
    replace (Z.of_nat xr + 1)%Z with (Z.of_nat (S xr)) by lia.
    replace (0 + Z.of_nat yd + 1)%Z with (Z.of_nat (S yd)) by lia.
    reflexivity. }
  split; [lia|]. split; [lia|]. split.
  - intros x y Hc. specialize (H0all _ _ Hc). specialize (H2all _ _ Hc).
    specialize (H3all _ _ Hc). specialize (Hmin _ _ Hc). lia.
  - repeat split; eauto.
Qed.

Lemma crop_getitem img (l u r d x y : nat) :
  (x < r - l)%nat -> (y < d - u)%nat ->
  getitem (crop img (Z.of_nat l, Z.of_nat u, Z.of_nat r, Z.of_nat d)) y x
  = getitem img (u + y) (l + x).
Proof.
  intros Hx Hy. unfold crop, getitem.
  replace (Z.to_nat (Z.of_nat r - Z.of_nat l)) with (r - l)%nat by lia.
  replace (Z.to_nat (Z.of_nat d - Z.of_nat u)) with (d - u)%nat by lia.
  rewrite !Nat2Z.id.
  change (map ?f ?l) with (f <$> l). rewrite list_lookup_fmap.
  rewrite lookup_take_lt by exact Hy. rewrite lookup_drop.
  destruct (img !! (u + y)%nat) as [row|]; simpl; [|reflexivity].
  rewrite lookup_take_lt by exact Hx. apply lookup_drop.
Qed.

Lemma crop_shape w h img (l u r d : nat) :
  shape w h img -> (l <= r <= w)%nat -> (u <= d <= h)%nat ->
  shape (r - l) (d - u)
        (crop img (Z.of_nat l, Z.of_nat u, Z.of_nat r, Z.of_nat d)).
Proof.
  intros [Hlen Hrows] Hlr Hud. unfold crop.
  replace (Z.to_nat (Z.of_nat r - Z.of_nat l)) with (r - l)%nat by lia.
  replace (Z.to_nat (Z.of_nat d - Z.of_nat u)) with (d - u)%nat by lia.
  rewrite !Nat2Z.id. split.
  - rewrite length_map, length_take, length_drop. lia.
  - apply Forall_map. apply Forall_take, Forall_drop.
    eapply Forall_impl; [exact Hrows|]. intros row Hrow. simpl in *.
    rewrite length_take, length_drop. lia.
Qed.

Lemma crop_content img (l u r d x y : nat) :
  (x < r - l)%nat -> (y < d - u)%nat ->
  content (crop img (Z.of_nat l, Z.of_nat u, Z.of_nat r, Z.of_nat d)) x y
  <-> content img (l + x) (u + y).
Proof.
  intros Hx Hy. rewrite !content_getitem, crop_getitem by assumption.
  reflexivity.
Qed.

End Cropper.

(** C1: when the composited buffer has a sample of non-zero alpha, the
    crop box exists, encloses every such sample, is the least box that
    does, and the cropped buffer is exactly the content of that box; so
    its first and last row and its first and last column each hold a
    sample of non-zero alpha. *)
Theorem crop_is_tight (w h : nat) (img : image8) :
  shape w h img -> (exists x y, content img x y) ->
  exists l u r d : nat,
    getbbox img = Some (Z.of_nat l, Z.of_nat u, Z.of_nat r, Z.of_nat d) /\
    (l < r <= w)%nat /\ (u < d <= h)%nat /\
    (forall x y, content img x y -> (l <= x < r)%nat /\ (u <= y < d)%nat) /\
    (forall l' u' r' d' : nat,
        (forall x y, content img x y ->
                     (l' <= x < r')%nat /\ (u' <= y < d')%nat) ->
        (l' <= l)%nat /\ (u' <= u)%nat /\ (r <= r')%nat /\ (d <= d')%nat) /\
    shape (r - l) (d - u) (crop_to_content img) /\
    (forall x y, (x < r - l)%nat -> (y < d - u)%nat ->
                 getitem (crop_to_content img) y x
                 = getitem img (u + y) (l + x)) /\
    (exists x, content (crop_to_content img) x 0) /\
    (exists x, content (crop_to_content img) x (d - u - 1)) /\
    (exists y, content (crop_to_content img) 0 y) /\
    (exists y, content (crop_to_content img) (r - l - 1) y).
Proof.
  intros Hs Hex.
  destruct (getbbox_tight w h img Hs Hex)
    as (l & u & r & d & Hbox & Hlr & Hud & Hall & Hl & Hr & Hu & Hd).
  exists l, u, (S r), (S d).
  unfold crop_to_content. rewrite Hbox.
  split; [reflexivity|]. split; [lia|]. split; [lia|]. split.
  { intros x y Hc. specialize (Hall x y Hc). lia. }
  split.
  { intros l' u' r' d' Henc.
    destruct Hl as [yl Hcl]. destruct Hr as [yr Hcr].
    destruct Hu as [xu Hcu]. destruct Hd as [xd Hcd].
    pose proof (Henc _ _ Hcl). pose proof (Henc _ _ Hcr).
    pose proof (Henc _ _ Hcu). pose proof (Henc _ _ Hcd). lia. }
  split; [apply (crop_shape w h); [exact Hs | lia | lia]|].
  split; [intros x y Hx Hy; apply crop_getitem; assumption|].
  destruct Hl as [yl Hcl]. destruct Hr as [yr Hcr].
  destruct Hu as [xu Hcu]. destruct Hd as [xd Hcd].
  pose proof (Hall _ _ Hcl). pose proof (Hall _ _ Hcr).
  pose proof (Hall _ _ Hcu). pose proof (Hall _ _ Hcd).
  split; [|split; [|split]].
  - exists (xu - l)%nat. apply crop_content; [lia | lia|].
    replace (l + (xu - l))%nat with xu by lia.
    replace (u + 0)%nat with u by lia. exact Hcu.
  - exists (xd - l)%nat. apply crop_content; [lia | lia|].
    replace (l + (xd - l))%nat with xd by lia.
    replace (u + (S d - u - 1))%nat with d by lia. exact Hcd.
  - exists (yl - u)%nat. apply crop_content; [lia | lia|].
    replace (u + (yl - u))%nat with yl by lia.
    replace (l + 0)%nat with l by lia. exact Hcl.
  - exists (yr - u)%nat. apply crop_content; [lia | lia|].
    replace (u + (yr - u))%nat with yr by lia.
    replace (l + (S r - l - 1))%nat with r by lia. exact Hcr.
Qed.

Lemma crop_is_tight_witness :
  exists l u r d : nat,
    getbbox [[Rgba8 255 255 255 0; Rgba8 200 30 30 255]]
    = Some (Z.of_nat l, Z.of_nat u, Z.of_nat r, Z.of_nat d) /\
    (l < r <= 2)%nat /\ (u < d <= 1)%nat /\
    (forall x y, content [[Rgba8 255 255 255 0; Rgba8 200 30 30 255]] x y ->
                 (l <= x < r)%nat /\ (u <= y < d)%nat) /\
    (forall l' u' r' d' : nat,
        (forall x y, content [[Rgba8 255 255 255 0; Rgba8 200 30 30 255]] x y ->
                     (l' <= x < r')%nat /\ (u' <= y < d')%nat) ->
        (l' <= l)%nat /\ (u' <= u)%nat /\ (r <= r')%nat /\ (d <= d')%nat) /\
    shape (r - l) (d - u)
          (crop_to_content [[Rgba8 255 255 255 0; Rgba8 200 30 30 255]]) /\
    (forall x y, (x < r - l)%nat -> (y < d - u)%nat ->
                 getitem (crop_to_content
                            [[Rgba8 255 255 255 0; Rgba8 200 30 30 255]]) y x
                 = getitem [[Rgba8 255 255 255 0; Rgba8 200 30 30 255]]
                           (u + y) (l + x)) /\
    (exists x, content (crop_to_content
                          [[Rgba8 255 255 255 0; Rgba8 200 30 30 255]]) x 0) /\
    (exists x, content (crop_to_content
                          [[Rgba8 255 255 255 0; Rgba8 200 30 30 255]]) x
                       (d - u - 1)) /\
    (exists y, content (crop_to_content
                          [[Rgba8 255 255 255 0; Rgba8 200 30 30 255]]) 0 y) /\
    (exists y, content (crop_to_content
                          [[Rgba8 255 255 255 0; Rgba8 200 30 30 255]])
                       (r - l - 1) y).
Proof.
  apply (crop_is_tight 2 1).
  - split; [reflexivity|]. repeat constructor.
  - exists 1%nat, 0%nat. eexists. split; [reflexivity|].
    eexists. split; [reflexivity|]. simpl. discriminate.
Defined.

(** C6: when no sample of the composited buffer has a non-zero alpha there
    is no crop box, no error is raised, and the buffer that goes on to the
    resampler is the composited buffer itself. *)
Theorem empty_content_passes_through (src : image8) (st : store) :
  composite src = Some st ->
  (forall x y, ~ content (astype_uint8 (result st)) x y) ->
  getbbox (astype_uint8 (result st)) = None /\
  crop_to_content (astype_uint8 (result st)) = astype_uint8 (result st) /\
  resize_request src
  = bind_exn (target_size (Z.of_nat (im_width (astype_uint8 (result st))))
                          (Z.of_nat (im_height (astype_uint8 (result st)))))
             (fun size => inr (astype_uint8 (result st), size)).
Proof.
  intros Hc Hno. pose proof (getbbox_empty _ Hno) as Hbox.
  assert (Hcrop : crop_to_content (astype_uint8 (result st))
                  = astype_uint8 (result st))
    by (unfold crop_to_content; rewrite Hbox; reflexivity).
  split; [exact Hbox|]. split; [exact Hcrop|].
  unfold resize_request. rewrite Hc. simpl. rewrite Hcrop. reflexivity.
Qed.

Lemma empty_content_passes_through_witness :
  getbbox [[Rgba8 255 255 255 0]] = None /\
  crop_to_content [[Rgba8 255 255 255 0]] = [[Rgba8 255 255 255 0]] /\
  resize_request [[Rgba8 255 255 255 255]]
  = inr ([[Rgba8 255 255 255 0]], (80, 80)%Z).
Proof.
  assert (Hc : composite [[Rgba8 255 255 255 255]]
               = Some (Store [[Rgbaf 255 255 255 255]]
                             [[Rgbaf 255 255 255 (255 * (1 - 1))]] 1))
    by reflexivity.
  pose proof (empty_content_passes_through _ _ Hc) as H.
  apply H. intros x y (row & Hrow & p & Hp & Ha).
  destruct y as [|y]; [|discriminate]. injection Hrow as <-.
  destruct x as [|x]; [|discriminate]. injection Hp as <-.
  apply Ha. reflexivity.
Defined.

Section ResampleConstant.

Lemma clip8_normalised c s :
  (0 <= c <= 255)%Z -> (Z.abs (s - 2 ^ PRECISION_BITS) <= 2 ^ 13)%Z ->
  clip8 (Z.shiftl 1 (PRECISION_BITS - 1) + c * s) = c.
Proof.
  intros Hc Hs. unfold clip8.
  rewrite Z.shiftr_div_pow2 by (unfold PRECISION_BITS; lia).
  change (Z.shiftl 1 (PRECISION_BITS - 1)) with 2097152%Z.
  change (2 ^ PRECISION_BITS)%Z with 4194304%Z in *.
  change (2 ^ 13)%Z with 8192%Z in Hs.
  assert (Hq : ((2097152 + c * s) / 4194304 = c)%Z).
  { symmetry. apply (Z.div_unique_pos _ _ c (2097152 + c * s - c * 4194304)); nia. }
  rewrite Hq. lia.
Qed.

Lemma weighted_sum_constant (ch : rgba8 -> Z) c k : forall n init,
  (length k <= n)%nat ->
  foldl (fun ss pk => (ss + ch (fst pk) * snd pk)%Z) init (zip (replicate n c) k)
  = (init + ch c * sum_weights k)%Z.
Proof.
  induction k as [|a k IH]; intros n init Hn.
  - destruct n; simpl; lia.
  - destruct n as [|n]; [simpl in Hn; lia|].
    simpl. rewrite IH by (simpl in Hn; lia). simpl. lia.
Qed.

Lemma resample_px_constant c k n :
  px_valid c -> (length k <= n)%nat ->
  (Z.abs (sum_weights k - 2 ^ PRECISION_BITS) <= 2 ^ 13)%Z ->
  resample_px (replicate n c) k = c.
Proof.
  intros (Hr & Hg & Hb & Ha) Hn Hk. unfold resample_px.
  rewrite !weighted_sum_constant by exact Hn.
  rewrite !clip8_normalised by assumption.
  destruct c; reflexivity.
Qed.

Lemma map_seq_constant {A} (f : nat -> A) (c : A) n : forall a,
  (forall i, (a <= i < a + n)%nat -> f i = c) -> map f (seq a n) = replicate n c.
Proof.
  induction n as [|n IH]; intros a Hf; [reflexivity|].
  simpl. rewrite Hf by lia. f_equal. apply IH. intros i Hi. apply Hf. lia.
Qed.

Lemma resample_line_constant cf c w xsize :
  px_valid c -> coeffs_normalised cf w xsize ->
  resample_line cf xsize (replicate w c) = replicate xsize c.
Proof.
  intros Hc Hcf. unfold resample_line. apply map_seq_constant.
  intros xx Hxx. destruct (Hcf xx) as [Hwin Hsum]; [lia|].
  rewrite drop_replicate. apply resample_px_constant; [exact Hc | lia | exact Hsum].
Qed.

Lemma map_replicate {A B} (f : A -> B) n (a : A) :
  map f (replicate n a) = replicate n (f a).
Proof. induction n; simpl; congruence. Qed.

Lemma column_constant c w n xx :
  (xx < w)%nat -> column (replicate n (replicate w c)) xx = replicate n c.
Proof.
  intros Hxx. unfold column. induction n as [|n IH]; [reflexivity|].
  simpl. rewrite lookup_replicate_2 by exact Hxx. simpl.
  f_equal. exact IH.
Qed.

Lemma im_width_replicate {A} (row : list A) h :
  (0 < h)%nat -> im_width (replicate h row) = length row.
Proof. destruct h; [lia | reflexivity]. Qed.

Lemma ResampleVertical_constant cf c w h ysize :
  px_valid c -> (0 < h)%nat -> coeffs_normalised cf h ysize ->
  ResampleVertical cf ysize (replicate h (replicate w c))
  = replicate ysize (replicate w c).
Proof.
  intros Hc Hh Hcf. unfold ResampleVertical.
  rewrite im_width_replicate, length_replicate by exact Hh.
  apply map_seq_constant. intros yy Hyy.
  destruct (Hcf yy) as [Hwin Hsum]; [lia|].
  apply map_seq_constant. intros xx Hxx.
  rewrite drop_replicate, column_constant by lia.
  apply resample_px_constant; [exact Hc | lia | exact Hsum].
Qed.

Variable lanczos : nat -> nat -> coeffs.

(** Resampling a one-coloured buffer gives the one-coloured buffer of the
    new size. *)
Lemma ImagingResample_constant c w h xsize ysize :
  px_valid c -> (0 < h)%nat ->
  coeffs_normalised (lanczos w xsize) w xsize ->
  coeffs_normalised (lanczos h ysize) h ysize ->
  ImagingResample lanczos (replicate h (replicate w c)) xsize ysize
  = replicate ysize (replicate xsize c).
Proof.
  intros Hc Hh Hx Hy. unfold ImagingResample. cbv zeta.
  rewrite im_width_replicate, length_replicate by exact Hh.
  unfold im_height. rewrite length_replicate.
  assert (Hhor : (if negb (xsize =? w)%nat
                  then ResampleHorizontal (lanczos w xsize) xsize
                                          (replicate h (replicate w c))
                  else replicate h (replicate w c))
                 = replicate h (replicate xsize c)).
  { destruct (Nat.eqb_spec xsize w) as [->|Hne]; simpl; [reflexivity|].
    unfold ResampleHorizontal. rewrite map_replicate.
    rewrite resample_line_constant by assumption. reflexivity. }
  rewrite Hhor, length_replicate.
  destruct (Nat.eqb_spec ysize h) as [->|Hne]; simpl; [reflexivity|].
  apply ResampleVertical_constant; assumption.
Qed.

End ResampleConstant.

Section Scenario.

Lemma scenario_shape : shape 100 150 scenario.
Proof.
  split; [reflexivity|]. unfold scenario. apply List.Forall_forall.
  intros row Hin. apply in_map_iff in Hin. destruct Hin as (y & <- & _).
  rewrite length_map, length_seq. reflexivity.
Qed.

Lemma lookup_map_seq {A} (f : nat -> A) n i :
  (i < n)%nat -> map f (seq 0 n) !! i = Some (f i).
Proof.
  intros Hi. change (map f (seq 0 n)) with (f <$> seq 0 n).
  rewrite list_lookup_fmap, lookup_seq_lt by exact Hi. reflexivity.
Qed.

Lemma scenario_getitem x y :
  (x < 100)%nat -> (y < 150)%nat ->
  getitem scenario y x = Some (scenario_px x y).
Proof.
  intros Hx Hy. unfold getitem, scenario.
  rewrite lookup_map_seq by exact Hy.
  exact (lookup_map_seq (fun x => scenario_px x y) 100 x Hx).
Qed.

Lemma scenario_request :
  resize_request scenario = inr (replicate 130 (replicate 80 red), (49, 80)%Z).
Proof. vm_compute. reflexivity. Qed.

Lemma scenario_composited :
  exists c, composite scenario
            = Some (Store (np_array scenario)
                          (map (map composite_px) (np_array scenario)) c).
Proof. apply (composite_closed_form 100 150), scenario_shape. Qed.

Lemma scenario_bbox :
  getbbox (astype_uint8 (map (map composite_px) (np_array scenario)))
  = Some (10, 10, 90, 140)%Z.
Proof. vm_compute. reflexivity. Qed.

Lemma scenario_crop :
  crop_to_content (astype_uint8 (map (map composite_px) (np_array scenario)))
  = replicate 130 (replicate 80 red).
Proof. vm_compute. reflexivity. Qed.

Lemma sharpen_red :
  filter_SHARPEN (replicate 80 (replicate 49 red))
  = replicate 80 (replicate 49 red).
Proof. vm_compute. reflexivity. Qed.

End Scenario.

Section ResizeConstant.

Variable lanczos : nat -> nat -> coeffs.

Lemma MULDIV255_opaque v : (0 <= v <= 255)%Z -> MULDIV255 v 255 = v.
Proof.
  intros Hv. unfold MULDIV255. cbv zeta.
  rewrite !Z.shiftr_div_pow2 by lia. change (2 ^ 8)%Z with 256%Z.
  assert (H1 : ((v * 255 + 128) / 256 = if v <=? 128 then v else v - 1)%Z).
  { destruct (Z.leb_spec v 128); symmetry.
    - apply (Z.div_unique_pos _ _ _ (128 - v)); lia.
    - apply (Z.div_unique_pos _ _ _ (384 - v)); lia. }
  rewrite H1. destruct (Z.leb_spec v 128); symmetry.
  - apply (Z.div_unique_pos _ _ _ 128); lia.
  - apply (Z.div_unique_pos _ _ _ 127); lia.
Qed.

Lemma premultiply_opaque c : px_valid c -> px_a c = 255%Z -> premultiply c = c.
Proof.
  intros (Hr & Hg & Hb & _) Ha. unfold premultiply. cbv zeta. rewrite Ha.
  rewrite !MULDIV255_opaque by assumption. destruct c; simpl in *; congruence.
Qed.

Lemma unpremultiply_opaque c : px_a c = 255%Z -> unpremultiply c = c.
Proof. intros Ha. unfold unpremultiply. cbv zeta. rewrite Ha. reflexivity. Qed.

(** Resizing an opaque one-coloured image gives the opaque one-coloured
    image of the requested size. *)
Lemma resize_constant c w h (xsize ysize : Z) :
  px_valid c -> px_a c = 255%Z -> (0 < h)%nat ->
  (1 <= xsize)%Z -> (1 <= ysize)%Z ->
  coeffs_normalised (lanczos w (Z.to_nat xsize)) w (Z.to_nat xsize) ->
  coeffs_normalised (lanczos h (Z.to_nat ysize)) h (Z.to_nat ysize) ->
  resize lanczos (replicate h (replicate w c)) (xsize, ysize)
  = inr (replicate (Z.to_nat ysize) (replicate (Z.to_nat xsize) c)).
Proof.
  intros Hc Ha Hh Hx Hy Hcx Hcy. unfold resize.
  rewrite im_width_replicate by exact Hh. unfold im_height.
  rewrite !length_replicate.
  destruct (Z.eqb_spec xsize (Z.of_nat w)) as [Hxw|Hxw];
    [destruct (Z.eqb_spec ysize (Z.of_nat h)) as [Hyh|Hyh]|]; simpl andb; cbv iota.
  - subst. rewrite !Nat2Z.id. reflexivity.
  - destruct (Z.ltb_spec xsize 1); [lia|]. destruct (Z.ltb_spec ysize 1); [lia|].
    simpl orb. cbv iota. f_equal.
    rewrite !map_replicate, premultiply_opaque by assumption.
    rewrite ImagingResample_constant by assumption.
    rewrite !map_replicate, unpremultiply_opaque by assumption. reflexivity.
  - destruct (Z.ltb_spec xsize 1); [lia|]. destruct (Z.ltb_spec ysize 1); [lia|].
    simpl orb. cbv iota. f_equal.
    rewrite !map_replicate, premultiply_opaque by assumption.
    rewrite ImagingResample_constant by assumption.
    rewrite !map_replicate, unpremultiply_opaque by assumption. reflexivity.
Qed.

End ResizeConstant.

(** C2: the scenario of the specification.  The input is 100 x 150; the
    classifier gives confidence 1 to every border sample and 0 to every
    inner sample; the crop box is (10, 10, 90, 140), i.e. 80 x 130, and the
    cropped buffer is all opaque red; the target size is 49 x 80; and the
    function returns a 49 x 80 image of which every sample is opaque red. *)
Theorem concrete_scenario (lanczos : nat -> nat -> coeffs) :
  coeffs_normalised (lanczos 80%nat 49%nat) 80 49 ->
  coeffs_normalised (lanczos 130%nat 80%nat) 130 80 ->
  shape 100 150 scenario /\
  (forall x y, (x < 100)%nat -> (y < 150)%nat ->
     getitem scenario y x = Some (scenario_px x y) /\
     alpha_factor (inject_Z (px_r (scenario_px x y)))
                  (inject_Z (px_g (scenario_px x y)))
                  (inject_Z (px_b (scenario_px x y)))
     = if scenario_interior x y then 0 else 1) /\
  (exists st,
      composite scenario = Some st /\
      getbbox (astype_uint8 (result st)) = Some (10, 10, 90, 140)%Z /\
      crop_to_content (astype_uint8 (result st))
      = replicate 130 (replicate 80 red)) /\
  shape 80 130 (replicate 130 (replicate 80 red)) /\
  target_size 80 130 = inr (49, 80)%Z /\
  resize_request scenario
  = inr (replicate 130 (replicate 80 red), (49, 80)%Z) /\
  resize lanczos (replicate 130 (replicate 80 red)) (49, 80)%Z
  = inr (replicate 80 (replicate 49 red)) /\
  remove_background_hd lanczos scenario = inr (replicate 80 (replicate 49 red)) /\
  shape 49 80 (replicate 80 (replicate 49 red)).
Proof.
  intros Hhor Hver.
  assert (Hresize : resize lanczos (replicate 130 (replicate 80 red)) (49, 80)%Z
                    = inr (replicate 80 (replicate 49 red))).
  { apply (resize_constant lanczos red 80 130 49 80); try lia; try assumption.
    - unfold px_valid, red. simpl. lia.
    - reflexivity. }
  split; [exact scenario_shape|]. split.
  { intros x y Hx Hy. split; [apply scenario_getitem; assumption|].
    unfold scenario_px. destruct (scenario_interior x y); reflexivity. }
  split.
  { destruct scenario_composited as [c Hc]. eexists. split; [exact Hc|].
    simpl result. split; [exact scenario_bbox | exact scenario_crop]. }
  split.
  { split; [apply length_replicate|]. apply Forall_replicate, length_replicate. }
  split; [reflexivity|]. split; [exact scenario_request|].
  split; [exact Hresize|]. split.
  - unfold remove_background_hd. rewrite scenario_request. unfold bind_exn at 1.
    rewrite Hresize. unfold bind_exn. rewrite sharpen_red. reflexivity.
  - split; [apply length_replicate|]. apply Forall_replicate, length_replicate.
Qed.

Lemma nearest_coeffs_normalised_80_49 :
  coeffs_normalised (nearest_coeffs 80 49) 80 49.
Proof.
  intros xx Hxx. split.
  - change (xx * 80 / 49 + 1 <= 80)%nat.
    assert ((xx * 80 / 49 < 80)%nat); [|lia].
    apply Nat.Div0.div_lt_upper_bound. lia.
  - vm_compute. discriminate.
Qed.

Lemma nearest_coeffs_normalised_130_80 :
  coeffs_normalised (nearest_coeffs 130 80) 130 80.
Proof.
  intros xx Hxx. split.
  - change (xx * 130 / 80 + 1 <= 130)%nat.
    assert ((xx * 130 / 80 < 130)%nat); [|lia].
    apply Nat.Div0.div_lt_upper_bound. lia.
  - vm_compute. discriminate.
Qed.

Lemma concrete_scenario_witness :
  remove_background_hd nearest_coeffs scenario
  = inr (replicate 80 (replicate 49 red)).
Proof.
  apply (concrete_scenario nearest_coeffs).
  - exact nearest_coeffs_normalised_80_49.
  - exact nearest_coeffs_normalised_130_80.
Defined.

Section PixelsModified.







End PixelsModified.



Section Uint8Buffer.






Lemma astype_composite_px p :
  px_valid p ->
  (let q := composite_px (to_float32 p) in
   Rgba8 (to_uint8 (fl_r q)) (to_uint8 (fl_g q)) (to_uint8 (fl_b q))
         (to_uint8 (fl_a q)))
  = composite8 p.
Proof.
  intros (Hr & Hg & Hb & _). cbv zeta.
  destruct (composite_px_rgb (to_float32 p)) as (Er & Eg & Eb).
  rewrite Er, Eg, Eb. simpl fl_r. simpl fl_g. simpl fl_b.
  rewrite !to_uint8_channel by assumption. reflexivity.
Qed.

Lemma nested_map_Forall {A B} (f g : A -> B) (l : list (list A)) :
  Forall (Forall (fun a => f a = g a)) l -> map (map f) l = map (map g) l.
Proof.
  induction 1 as [|row rest Hrow _ IH]; [reflexivity|].
  simpl. f_equal; [|exact IH].
  induction Hrow as [|a row Ha _ IHrow]; [reflexivity|].
  simpl. f_equal; assumption.
Qed.

End Uint8Buffer.



Section GrayRamp.











End GrayRamp.


Section ChannelSpread.






End ChannelSpread.


Section CropAgain.

Lemma getbbox_Some_content img box :
  getbbox img = Some box -> exists x y, content img x y.
Proof.
  unfold getbbox.
  destruct (scan_rows img 0 _) as [[[b0 b1] b2] b3] eqn:E.
  apply scan_rows_y in E; [|lia]. destruct E as (_ & Hb1 & _ & _).
  destruct (Z.ltb_spec b1 0) as [Hneg | Hpos]; [discriminate|]. intros _.
  destruct (Hb1 ltac:(lia)) as [[-> _] | (x & y & Hc & _)]; [lia|].
  exists x, y. exact Hc.
Qed.

(** Cropping to the whole image changes nothing. *)
Lemma crop_full w h (img : image8) :
  shape w h img ->
  crop img (Z.of_nat 0, Z.of_nat 0, Z.of_nat w, Z.of_nat h) = img.
Proof.
  intros [Hlen Hrows]. unfold crop.
  replace (Z.to_nat (Z.of_nat w - Z.of_nat 0)) with w by lia.
  replace (Z.to_nat (Z.of_nat h - Z.of_nat 0)) with h by lia.
  rewrite !Nat2Z.id, drop_0, take_ge by lia.
  rewrite <- (map_id img) at 2. apply map_ext_Forall.
  eapply Forall_impl; [exact Hrows|]. intros row Hrow. simpl in *.
  rewrite drop_0, take_ge by lia. reflexivity.
Qed.

(** A buffer with content in its first and last row and column is its own
    bounding box. *)
Lemma getbbox_whole w h (img : image8) :
  shape w h img ->
  (exists y, content img 0 y) -> (exists y, content img (w - 1) y) ->
  (exists x, content img x 0) -> (exists x, content img x (h - 1)) ->
  getbbox img = Some (Z.of_nat 0, Z.of_nat 0, Z.of_nat w, Z.of_nat h).
Proof.
  intros Hs [yl Hl] [yr Hr] [xu Hu] [xd Hd].
  destruct (getbbox_tight w h img Hs) as
      (l & u & r & d & Hbox & Hlr & Hud & Hall & _); [eauto|].
  pose proof (Hall _ _ Hl). pose proof (Hall _ _ Hr).
  pose proof (Hall _ _ Hu). pose proof (Hall _ _ Hd).
  rewrite Hbox. repeat f_equal; lia.
Qed.

(** The shape of the cropped buffer, with or without a box. *)
Lemma crop_to_content_shape w h (img : image8) :
  shape w h img -> (0 < h)%nat ->
  exists w' h', shape w' h' (crop_to_content img) /\
                (0 < h' <= h)%nat /\ (w' <= w)%nat /\
                ((0 < w)%nat -> (0 < w')%nat).
Proof.
  intros Hs Hh. unfold crop_to_content.
  destruct (getbbox img) as [box|] eqn:E.
  - destruct (getbbox_Some_content _ _ E) as (x & y & Hc).
    destruct (getbbox_tight w h img Hs) as
        (l & u & r & d & Hbox & Hlr & Hud & _); [eauto|].
    rewrite Hbox in E. injection E as <-.
    exists (S r - l)%nat, (S d - u)%nat. split.
    + apply (crop_shape w h); [exact Hs | lia | lia].
    + lia.
  - exists w, h. split; [exact Hs|]. lia.
Qed.

End CropAgain.

(** X5: cropping to content is idempotent: the cropped buffer is its own
    bounding box, so a second crop returns it unchanged. *)
Theorem crop_to_content_idempotent (w h : nat) (img : image8) :
  shape w h img ->
  crop_to_content (crop_to_content img) = crop_to_content img.
Proof.
  intros Hs. destruct (getbbox img) as [box|] eqn:E.
  - destruct (getbbox_Some_content _ _ E) as (x & y & Hc).
    destruct (getbbox_tight w h img Hs) as
        (l & u & r & d & Hbox & Hlr & Hud & Hall & Hl & Hr & Hu & Hd);
      [eauto|].
    clear E.
    set (c := crop img (Z.of_nat l, Z.of_nat u, Z.of_nat (S r), Z.of_nat (S d))).
    assert (Hc1 : crop_to_content img = c)
      by (unfold crop_to_content; rewrite Hbox; reflexivity).
    rewrite Hc1.
    assert (Hsc : shape (S r - l) (S d - u) c)
      by (apply (crop_shape w h); [exact Hs | lia | lia]).
    destruct Hl as [yl Hcl]. destruct Hr as [yr Hcr].
    destruct Hu as [xu Hcu]. destruct Hd as [xd Hcd].
    pose proof (Hall _ _ Hcl). pose proof (Hall _ _ Hcr).
    pose proof (Hall _ _ Hcu). pose proof (Hall _ _ Hcd).
    assert (Hbox' : getbbox c
                    = Some (Z.of_nat 0, Z.of_nat 0,
                            Z.of_nat (S r - l), Z.of_nat (S d - u))).
    { apply getbbox_whole; [exact Hsc | | | |].
      - exists (yl - u)%nat. apply crop_content; [lia | lia|].
        replace (l + 0)%nat with l by lia.
        replace (u + (yl - u))%nat with yl by lia. exact Hcl.
      - exists (yr - u)%nat. apply crop_content; [lia | lia|].
        replace (l + (S r - l - 1))%nat with r by lia.
        replace (u + (yr - u))%nat with yr by lia. exact Hcr.
      - exists (xu - l)%nat. apply crop_content; [lia | lia|].
        replace (l + (xu - l))%nat with xu by lia.
        replace (u + 0)%nat with u by lia. exact Hcu.
      - exists (xd - l)%nat. apply crop_content; [lia | lia|].
        replace (l + (xd - l))%nat with xd by lia.
        replace (u + (S d - u - 1))%nat with d by lia. exact Hcd. }
    unfold crop_to_content. rewrite Hbox'. apply (crop_full _ _ _ Hsc).
  - assert (Hc1 : crop_to_content img = img)
      by (unfold crop_to_content; rewrite E; reflexivity).
    rewrite !Hc1. reflexivity.
Qed.

Lemma crop_to_content_idempotent_witness :
  crop_to_content
    (crop_to_content [[Rgba8 255 255 255 0; Rgba8 200 30 30 255];
                      [Rgba8 255 255 255 0; Rgba8 255 255 255 0]])
  = crop_to_content [[Rgba8 255 255 255 0; Rgba8 200 30 30 255];
                     [Rgba8 255 255 255 0; Rgba8 255 255 255 0]].
Proof.
  apply (crop_to_content_idempotent 2 2).
  split; [reflexivity|]. repeat constructor.
Defined.

Section PipelineShape.

Lemma astype_uint8_shape w h (a : ndarray) :
  shape w h a -> shape w h (astype_uint8 a).
Proof. apply shape_map. Qed.

Lemma astype_composited (img : image8) :
  Forall (Forall px_valid) img ->
  astype_uint8 (map (map composite_px) (np_array img))
  = map (map composite8) img.
Proof.
  intros Hvalid. unfold astype_uint8, np_array. rewrite !map_map.
  apply map_ext_Forall. eapply Forall_impl; [exact Hvalid|].
  intros row Hrow. simpl. rewrite !map_map.
  apply map_ext_Forall. eapply Forall_impl; [exact Hrow|].
  intros p Hp. simpl. apply (astype_composite_px p Hp).
Qed.

Lemma ImagingFilter3x3_shape kernel offset w h (img : image8) :
  shape w h img -> shape w h (ImagingFilter3x3 kernel offset img).
Proof.
  intros [Hlen Hrows]. unfold ImagingFilter3x3. cbv zeta. split.
  - rewrite length_imap. exact Hlen.
  - apply Forall_lookup_2. intros y row Hy.
    rewrite list_lookup_imap in Hy.
    destruct (img !! y) as [in0|] eqn:E; [|discriminate].
    simpl in Hy. injection Hy as <-.
    pose proof (Forall_lookup_1 _ _ _ _ Hrows E) as Hin0. simpl in Hin0.
    destruct ((y =? 0) || (y =? im_height img - 1))%nat; [exact Hin0|].
    rewrite length_imap. exact Hin0.
Qed.

(** The sharpening filter returns an image of the size it was given. *)
Lemma filter_SHARPEN_shape w h (img : image8) :
  shape w h img -> shape w h (filter_SHARPEN img).
Proof.
  intros Hs. unfold filter_SHARPEN.
  destruct ((im_width img <? 3) || (im_height img <? 3))%nat; [exact Hs|].
  apply ImagingFilter3x3_shape, Hs.
Qed.

(** Up to line 86: neither the loops nor the crop nor the division raise
    on an image with at least one row. *)
Lemma resize_request_shape w h (img : image8) :
  shape w h img -> (0 < h)%nat ->
  exists out (w' h' : nat),
    resize_request img
    = inr (out, ((target_height * Z.of_nat w' / Z.of_nat h')%Z, target_height))
    /\ shape w' h' out /\ (0 < h' <= h)%nat /\ (w' <= w)%nat /\
    ((0 < w)%nat -> (0 < w')%nat).
Proof.
  intros Hs Hh. destruct (composite_closed_form w h img Hs) as [c Hc].
  unfold resize_request. rewrite Hc. cbn [from_option bind_exn result].
  cbv zeta.
  set (buf := astype_uint8 (map (map composite_px) (np_array img))).
  assert (Hbuf : shape w h buf)
    by (apply astype_uint8_shape, shape_map, np_array_shape, Hs).
  destruct (crop_to_content_shape w h buf Hbuf Hh)
    as (w' & h' & Hs' & Hh' & Hw' & Hpos).
  exists (crop_to_content buf), w', h'.
  rewrite (shape_width _ _ _ Hs') by lia. rewrite (shape_height _ _ _ Hs').
  rewrite target_size_pos by lia. rewrite target_width_div by lia.
  cbn [bind_exn]. auto.
Qed.

End PipelineShape.

(** X6: on every image with at least one row the function reaches the
    resize call: the loops, the crop and the division raise nothing, the
    buffer handed on is rectangular, not larger than the input and has at
    least one row, and the requested size is (80 * w' / h', 80) for its
    width w' and height h'. *)
Theorem pipeline_reaches_resize (w h : nat) (img : image8) :
  shape w h img -> (0 < h)%nat ->
  exists out (w' h' : nat),
    resize_request img
    = inr (out, ((target_height * Z.of_nat w' / Z.of_nat h')%Z, target_height))
    /\ shape w' h' out /\ (0 < h' <= h)%nat /\ (w' <= w)%nat /\
    ((0 < w)%nat -> (0 < w')%nat).
Proof. apply resize_request_shape. Qed.

Lemma pipeline_reaches_resize_witness :
  exists out (w' h' : nat),
    resize_request [[Rgba8 255 255 255 7; Rgba8 200 30 30 7]]
    = inr (out, ((target_height * Z.of_nat w' / Z.of_nat h')%Z, target_height))
    /\ shape w' h' out /\ (0 < h' <= 1)%nat /\ (w' <= 2)%nat /\
    ((0 < 2)%nat -> (0 < w')%nat).
Proof.
  apply (pipeline_reaches_resize 2 1); [|lia].
  split; [reflexivity|]. repeat constructor.
Defined.

(** X7: what the whole function returns on an image with at least one row
    and one column.  With w' x h' the size of the cropped buffer, it
    returns an image of exactly floor(80 * w' / h') x 80 samples when
    h' <= 80 * w', and fails with the ValueError of [resize] when the
    content is more than 80 times as tall as it is wide. *)
Theorem pipeline_outcome (lanczos : nat -> nat -> coeffs)
        (w h : nat) (img : image8) :
  shape w h img -> (0 < w)%nat -> (0 < h)%nat ->
  exists out (w' h' : nat) (tw : Z),
    resize_request img = inr (out, (tw, 80%Z)) /\
    shape w' h' out /\ (0 < w' <= w)%nat /\ (0 < h' <= h)%nat /\
    tw = (80 * Z.of_nat w' / Z.of_nat h')%Z /\
    ((h' <= 80 * w')%nat ->
     (1 <= tw)%Z /\
     exists final, remove_background_hd lanczos img = inr final /\
                   shape (Z.to_nat tw) 80 final) /\
    ((80 * w' < h')%nat ->
     tw = 0%Z /\
     remove_background_hd lanczos img = inl "ValueError"%string).
Proof.
  intros Hs Hw Hh.
  destruct (resize_request_shape w h img Hs Hh)
    as (out & w' & h' & Hreq & Hs' & Hh' & Hw' & Hpos).
  specialize (Hpos Hw).
  exists out, w', h', (80 * Z.of_nat w' / Z.of_nat h')%Z.
  split; [exact Hreq|]. split; [exact Hs'|]. split; [lia|]. split; [lia|].
  split; [reflexivity|].
  unfold remove_background_hd. rewrite Hreq. cbn [bind_exn].
  change target_height with 80%Z. split.
  - intros Hfit.
    assert (Htw : (1 <= 80 * Z.of_nat w' / Z.of_nat h')%Z)
      by (apply Z.div_le_lower_bound; lia).
    split; [exact Htw|].
    destruct (resize_shape lanczos w' h' out
                (80 * Z.of_nat w' / Z.of_nat h')%Z 80%Z Hs')
      as (res & Hres & Hshape); [lia | exact Htw | lia|].
    rewrite Hres. cbn [bind_exn]. eexists. split; [reflexivity|].
    apply filter_SHARPEN_shape. exact Hshape.
  - intros Hthin.
    assert (Htw : (80 * Z.of_nat w' / Z.of_nat h' = 0)%Z)
      by (apply Z.div_small; lia).
    split; [exact Htw|]. rewrite Htw. unfold resize.
    rewrite (shape_width _ _ _ Hs') by lia.
    destruct (Z.eqb_spec 0 (Z.of_nat w')); [lia|]. reflexivity.
Qed.

Lemma pipeline_outcome_witness :
  exists out (w' h' : nat) (tw : Z),
    resize_request [[Rgba8 255 255 255 7; Rgba8 200 30 30 7]]
    = inr (out, (tw, 80%Z)) /\
    shape w' h' out /\ (0 < w' <= 2)%nat /\ (0 < h' <= 1)%nat /\
    tw = (80 * Z.of_nat w' / Z.of_nat h')%Z /\
    ((h' <= 80 * w')%nat ->
     (1 <= tw)%Z /\
     exists final,
       remove_background_hd nearest_coeffs
                            [[Rgba8 255 255 255 7; Rgba8 200 30 30 7]]
       = inr final /\
       shape (Z.to_nat tw) 80 final) /\
    ((80 * w' < h')%nat ->
     tw = 0%Z /\
     remove_background_hd nearest_coeffs
                          [[Rgba8 255 255 255 7; Rgba8 200 30 30 7]]
     = inl "ValueError"%string).
Proof.
  apply (pipeline_outcome nearest_coeffs 2 1); [|lia|lia].
  split; [reflexivity|]. repeat constructor.
Defined.

(** X8: the requested size depends on the aspect ratio only: scaling the
    width and the height of the crop by one factor leaves it unchanged. *)
Theorem target_size_scale_invariant (k w h : Z) :
  (0 < k)%Z -> (0 <= w)%Z -> (0 < h)%Z ->
  target_size (k * w) (k * h) = target_size w h.
Proof.
  intros Hk Hw Hh.
  rewrite !target_size_pos by lia. rewrite !target_width_div by lia.
  do 2 f_equal.
  replace (target_height * (k * w))%Z with (k * (target_height * w))%Z by lia.
  apply Z.div_mul_cancel_l; lia.
Qed.

Lemma target_size_scale_invariant_witness :
  target_size (3 * 80) (3 * 130) = target_size 80 130.
Proof. apply target_size_scale_invariant; lia. Defined.

Section Passthrough.

Lemma getitem_in_shape {A} w h (l : list (list A)) y x :
  shape w h l -> (y < h)%nat -> (x < w)%nat -> is_Some (getitem l y x).
Proof.
  intros Hs Hy Hx. unfold getitem.
  destruct (lookup_lt_is_Some_2 l y) as [row Hrow]; [destruct Hs; lia|].
  rewrite Hrow. simpl. apply lookup_lt_is_Some_2.
  rewrite (shape_lookup _ _ _ _ _ Hs Hrow). exact Hx.
Qed.

Lemma composited_with_alpha (a : Z) (img : image8) :
  Forall (Forall px_valid) img ->
  Forall (Forall (fun p => alpha8 p = a)) img ->
  astype_uint8 (map (map composite_px) (np_array img))
  = map (map (with_alpha a)) img.
Proof.
  intros Hvalid Ha. rewrite (astype_composited img Hvalid).
  apply nested_map_Forall. eapply Forall_impl; [exact Ha|].
  intros row Hrow. eapply Forall_impl; [exact Hrow|].
  intros p Hp. simpl in *. unfold composite8, with_alpha. rewrite Hp.
  reflexivity.
Qed.

Lemma with_alpha_content (a : Z) w h (img : image8) x y :
  shape w h img -> a <> 0%Z -> (x < w)%nat -> (y < h)%nat ->
  content (map (map (with_alpha a)) img) x y.
Proof.
  intros Hs Ha Hx Hy. apply content_getitem. rewrite getitem_map.
  destruct (getitem_in_shape w h img y x Hs Hy Hx) as [p Hp].
  rewrite Hp. simpl. exists (with_alpha a p). split; [reflexivity | exact Ha].
Qed.

Lemma with_alpha_no_content (img : image8) x y :
  ~ content (map (map (with_alpha 0)) img) x y.
Proof.
  intros Hc. apply content_getitem in Hc. destruct Hc as (q & Hq & Ha).
  rewrite getitem_map in Hq.
  destruct (getitem img y x) as [p|]; [|discriminate].
  simpl in Hq. injection Hq as <-. apply Ha. reflexivity.
Qed.

Lemma skipped_alpha8 p :
  classify (inject_Z (px_r p)) (inject_Z (px_g p)) (inject_Z (px_b p)) = None ->
  alpha8 p = 255%Z.
Proof.
  intros H. unfold alpha8, composite_px, px_step, to_float32. simpl.
  rewrite H. reflexivity.
Qed.

End Passthrough.

(** X9: an image in which the classifier takes no sample for background
    goes to the resampler whole: nothing is cropped, the colours are those
    of the input and every alpha, whatever it was in the input, is 255. *)
Theorem foreground_image_is_not_cropped (w h : nat) (img : image8) :
  shape w h img -> (0 < w)%nat -> (0 < h)%nat ->
  Forall (Forall px_valid) img ->
  Forall (Forall (fun p => classify (inject_Z (px_r p)) (inject_Z (px_g p))
                                    (inject_Z (px_b p)) = None)) img ->
  resize_request img
  = inr (map (map (with_alpha 255)) img,
         ((80 * Z.of_nat w / Z.of_nat h)%Z, 80%Z)).
Proof.
  intros Hs Hw Hh Hvalid Hskip.
  destruct (composite_closed_form w h img Hs) as [c Hc].
  unfold resize_request. rewrite Hc. cbn [from_option bind_exn result].
  cbv zeta.
  rewrite (composited_with_alpha 255 img Hvalid).
  2:{ eapply Forall_impl; [exact Hskip|]. intros row Hrow.
      eapply Forall_impl; [exact Hrow|]. intros p Hp.
      apply skipped_alpha8. exact Hp. }
  set (buf := map (map (with_alpha 255)) img).
  assert (Hbuf : shape w h buf) by (apply shape_map, Hs).
  assert (Hcrop : crop_to_content buf = buf).
  { unfold crop_to_content.
    rewrite (getbbox_whole w h buf Hbuf).
    - apply (crop_full w h buf Hbuf).
    - exists 0%nat. apply (with_alpha_content 255 w h); [exact Hs|lia|lia|lia].
    - exists 0%nat. apply (with_alpha_content 255 w h); [exact Hs|lia|lia|lia].
    - exists 0%nat. apply (with_alpha_content 255 w h); [exact Hs|lia|lia|lia].
    - exists 0%nat. apply (with_alpha_content 255 w h); [exact Hs|lia|lia|lia]. }
  rewrite Hcrop.
  rewrite (shape_width _ _ _ Hbuf) by lia. rewrite (shape_height _ _ _ Hbuf).
  rewrite target_size_pos by lia. rewrite target_width_div by lia.
  reflexivity.
Qed.

Lemma foreground_image_is_not_cropped_witness :
  resize_request [[Rgba8 200 30 30 7; Rgba8 10 20 30 0]]
  = inr (map (map (with_alpha 255)) [[Rgba8 200 30 30 7; Rgba8 10 20 30 0]],
         ((80 * Z.of_nat 2 / Z.of_nat 1)%Z, 80%Z)).
Proof.
  apply (foreground_image_is_not_cropped 2 1); try lia.
  - split; [reflexivity|]. repeat constructor.
  - repeat constructor; simpl; lia.
  - repeat constructor.
Defined.

(** X10: an image of which every sample comes out fully transparent (an
    all-white image, for one) is not cropped and raises nothing: the whole
    buffer, with the colours of the input and alpha 0 throughout, goes to
    the resampler with the size (80 * w / h, 80). *)
Theorem background_image_is_not_cropped (w h : nat) (img : image8) :
  shape w h img -> (0 < h)%nat ->
  Forall (Forall px_valid) img ->
  Forall (Forall (fun p => alpha8 p = 0%Z)) img ->
  resize_request img
  = inr (map (map (with_alpha 0)) img,
         ((80 * Z.of_nat w / Z.of_nat h)%Z, 80%Z)).
Proof.
  intros Hs Hh Hvalid Hzero.
  destruct (composite_closed_form w h img Hs) as [c Hc].
  unfold resize_request. rewrite Hc. cbn [from_option bind_exn result].
  cbv zeta.
  rewrite (composited_with_alpha 0 img Hvalid Hzero).
  set (buf := map (map (with_alpha 0)) img).
  assert (Hbuf : shape w h buf) by (apply shape_map, Hs).
  assert (Hcrop : crop_to_content buf = buf).
  { unfold crop_to_content. rewrite getbbox_empty; [reflexivity|].
    intros x y. apply with_alpha_no_content. }
  rewrite Hcrop.
  rewrite (shape_width _ _ _ Hbuf) by lia. rewrite (shape_height _ _ _ Hbuf).
  rewrite target_size_pos by lia. rewrite target_width_div by lia.
  reflexivity.
Qed.

Lemma background_image_is_not_cropped_witness :
  resize_request [[Rgba8 255 255 255 255; Rgba8 240 240 240 255]]
  = inr (map (map (with_alpha 0))
             [[Rgba8 255 255 255 255; Rgba8 240 240 240 255]],
         ((80 * Z.of_nat 2 / Z.of_nat 1)%Z, 80%Z)).
Proof.
  apply (background_image_is_not_cropped 2 1); try lia.
  - split; [reflexivity|]. repeat constructor.
  - repeat constructor; simpl; lia.
  - repeat constructor.
Defined.

(** X11: the whole function ignores the alpha channel of its input: two
    images of one shape that agree on R, G and B give the same request to
    the resampler and the same result, error or image. *)
Theorem pipeline_ignores_input_alpha (lanczos : nat -> nat -> coeffs)
        (w h : nat) (img1 img2 : image8) :
  shape w h img1 -> shape w h img2 ->
  (forall y x p1 p2,
      getitem img1 y x = Some p1 -> getitem img2 y x = Some p2 ->
      same_rgb p1 p2) ->
  resize_request img1 = resize_request img2 /\
  remove_background_hd lanczos img1 = remove_background_hd lanczos img2.
Proof.
  intros H1 H2 Hrgb.
  destruct (composite_closed_form w h img1 H1) as [c1 Hc1].
  destruct (composite_closed_form w h img2 H2) as [c2 Hc2].
  assert (Heq : map (map composite_px) (np_array img1)
                = map (map composite_px) (np_array img2)).
  { unfold np_array. rewrite !map_map.
    rewrite (map_ext _ (map (fun p => composite_px (to_float32 p))))
      by (intros row; apply map_map).
    rewrite (map_ext (fun row => map composite_px (map to_float32 row))
                     (map (fun p => composite_px (to_float32 p))))
      by (intros row; apply map_map).
    apply (nested_map_ext _ w h); [exact H1 | exact H2|].
    intros y x a b Ha Hb. apply composite_px_same_rgb. eapply Hrgb; eassumption. }
  assert (Hreq : resize_request img1 = resize_request img2).
  { unfold resize_request. rewrite Hc1, Hc2.
    cbn [from_option bind_exn result]. rewrite Heq. reflexivity. }
  split; [exact Hreq|].
  unfold remove_background_hd. rewrite Hreq. reflexivity.
Qed.

Lemma pipeline_ignores_input_alpha_witness :
  resize_request [[Rgba8 255 255 255 7; Rgba8 200 30 30 7]]
  = resize_request [[Rgba8 255 255 255 200; Rgba8 200 30 30 0]] /\
  remove_background_hd nearest_coeffs [[Rgba8 255 255 255 7; Rgba8 200 30 30 7]]
  = remove_background_hd nearest_coeffs
                         [[Rgba8 255 255 255 200; Rgba8 200 30 30 0]].
Proof.
  apply (pipeline_ignores_input_alpha nearest_coeffs 2 1).
  - split; [reflexivity|]. repeat constructor.
  - split; [reflexivity|]. repeat constructor.
  - intros [|[|y]] [|[|x]] p1 p2; simpl; intros [= <-] [= <-];
      repeat split.
Defined.

(** * Texture generators (create_game_textures.py) *)

Section Painting.

Lemma paint_shape (w h : nat) (m : region) (ink : rgba8) (img : image8) :
  shape w h img -> shape w h (paint m ink img).
Proof.
  intros [Hlen Hrows]. unfold paint. split.
  - rewrite length_imap. exact Hlen.
  - apply Forall_lookup. intros y row Hy.
    rewrite list_lookup_imap in Hy.
    destruct (img !! y) as [row0|] eqn:E; [|discriminate].
    simpl in Hy. injection Hy as <-. rewrite length_imap.
    rewrite Forall_lookup in Hrows. exact (Hrows _ _ E).
Qed.

(** A sample of the painted canvas is the ink or the sample below it. *)
Lemma paint_Forall (P : rgba8 -> Prop) (m : region) (ink : rgba8)
      (img : image8) :
  P ink -> Forall (Forall P) img -> Forall (Forall P) (paint m ink img).
Proof.
  intros Hink Himg. unfold paint. apply Forall_lookup. intros y row Hy.
  rewrite list_lookup_imap in Hy.
  destruct (img !! y) as [row0|] eqn:E; [|discriminate].
  simpl in Hy. injection Hy as <-.
  rewrite Forall_lookup in Himg. specialize (Himg _ _ E).
  apply Forall_lookup. intros x p Hx. rewrite list_lookup_imap in Hx.
  destruct (row0 !! x) as [p0|] eqn:Ex; [|discriminate].
  simpl in Hx. injection Hx as <-.
  destruct (m x y); [exact Hink|].
  rewrite Forall_lookup in Himg. exact (Himg _ _ Ex).
Qed.

(** A shape that covers the canvas leaves nothing of it. *)
Lemma paint_cover (P : rgba8 -> Prop) (w h : nat) (m : region) (ink : rgba8)
      (img : image8) :
  shape w h img ->
  (forall x y, (x < w)%nat -> (y < h)%nat -> m x y = true) ->
  P ink -> Forall (Forall P) (paint m ink img).
Proof.
  intros [Hlen Hrows] Hm Hink. unfold paint. apply Forall_lookup.
  intros y row Hy. rewrite list_lookup_imap in Hy.
  destruct (img !! y) as [row0|] eqn:E; [|discriminate].
  simpl in Hy. injection Hy as <-.
  apply Forall_lookup. intros x p Hx. rewrite list_lookup_imap in Hx.
  destruct (row0 !! x) as [p0|] eqn:Ex; [|discriminate].
  simpl in Hx. injection Hx as <-.
  rewrite Hm; [exact Hink| |].
  - rewrite Forall_lookup in Hrows. rewrite <- (Hrows _ _ E).
    apply lookup_lt_Some in Ex. exact Ex.
  - rewrite <- Hlen. apply lookup_lt_Some in E. exact E.
Qed.

Lemma rectangle_fill_canvas (width height : Z) (x y : nat) :
  (x < Z.to_nat width)%nat -> (y < Z.to_nat height)%nat ->
  rectangle_fill 0 0 width height x y = true.
Proof.
  intros Hx Hy. unfold rectangle_fill.
  repeat (apply andb_true_intro; split); apply Z.leb_le; lia.
Qed.

Lemma Image_new_ok (width height : Z) (color : rgba8) :
  (0 <= width)%Z -> (0 <= height)%Z ->
  Image_new width height color
  = inr (replicate (Z.to_nat height) (replicate (Z.to_nat width) color)).
Proof.
  intros Hw Hh. unfold Image_new.
  destruct (Z.ltb_spec width 0); [lia|].
  destruct (Z.ltb_spec height 0); [lia|]. reflexivity.
Qed.

Lemma Image_new_negative (width height : Z) (color : rgba8) :
  (width < 0 \/ height < 0)%Z ->
  Image_new width height color = inl "ValueError"%string.
Proof.
  intros Hneg. unfold Image_new.
  destruct (Z.ltb_spec width 0); [reflexivity|].
  destruct (Z.ltb_spec height 0); [reflexivity|]. lia.
Qed.

Lemma replicate_shape {A} (w h : nat) (a : A) :
  shape w h (replicate h (replicate w a)).
Proof.
  split; [apply length_replicate|].
  apply Forall_replicate. apply length_replicate.
Qed.

Lemma replicate_Forall (P : rgba8 -> Prop) (w h : nat) (a : rgba8) :
  P a -> Forall (Forall P) (replicate h (replicate w a)).
Proof. intros Ha. apply Forall_replicate, Forall_replicate, Ha. Qed.

End Painting.

Section RaisingLoops.

Context {S : Type}.

Lemma foldl_raised (body : nat -> S -> exn + S) (e : exn) (l : list nat) :
  foldl (fun acc i => bind_exn acc (body i)) (inl e) l = inl e.
Proof. induction l as [|i l IH]; [reflexivity|]. simpl. exact IH. Qed.

(** A body that keeps an invariant and never raises runs to the end. *)
Lemma for_range_exn_invariant (I : S -> Prop) (n : nat)
      (body : nat -> S -> exn + S) (s : S) :
  (forall i s, I s -> exists s', body i s = inr s' /\ I s') ->
  I s ->
  exists s', for_range_exn n body s = inr s' /\ I s'.
Proof.
  intros Hbody. unfold for_range_exn. generalize (seq 0 n). intros l.
  revert s. induction l as [|i l IH]; intros s Hs.
  - exists s. split; [reflexivity|exact Hs].
  - simpl. destruct (Hbody i s Hs) as (s' & -> & Hs'). exact (IH s' Hs').
Qed.

(** An exception in the first iteration leaves the loop. *)
Lemma for_range_exn_raises (n : nat) (body : nat -> S -> exn + S) (s : S)
      (e : exn) :
  body 0%nat s = inl e -> for_range_exn (Datatypes.S n) body s = inl e.
Proof.
  intros Hb. unfold for_range_exn. simpl. rewrite Hb. apply foldl_raised.
Qed.

End RaisingLoops.

Section Spots.

Context `{ImageDraw} `{Random}.
Hypothesis randint_ok : randint_spec.

Lemma shaded_id (c s : Z) :
  (0 <= c + s <= 255)%Z -> shaded c s = (c + s)%Z.
Proof. intros Hr. unfold shaded. lia. Qed.

Lemma platform_spot_invariant (P : rgba8 -> Prop) (width height : Z) :
  (10 <= width)%Z -> (5 <= height)%Z ->
  (forall s, (-30 <= s <= 30)%Z -> P (rgb (136 + s) (136 + s) (136 + s))) ->
  forall (i : nat) (st : rng * image8),
    shape (Z.to_nat width) (Z.to_nat height) st.2 /\ Forall (Forall P) st.2 ->
    exists st', platform_spot width height i st = inr st' /\
      (shape (Z.to_nat width) (Z.to_nat height) st'.2 /\
       Forall (Forall P) st'.2).
Proof.
  intros Hw Hh HP i [g img] [Hshape Hall]. simpl in Hshape, Hall.
  destruct randint_ok as [Hrange _]. unfold platform_spot.
  destruct (Hrange 0%Z (width - 10)%Z g ltac:(lia)) as (x & g1 & -> & _).
  cbn [bind_exn].
  destruct (Hrange 0%Z (height - 5)%Z g1 ltac:(lia)) as (y & g2 & -> & _).
  cbn [bind_exn].
  destruct (Hrange 3%Z 8%Z g2 ltac:(lia)) as (size & g3 & -> & _).
  cbn [bind_exn].
  destruct (Hrange (-30)%Z 30%Z g3 ltac:(lia)) as (shade & g4 & -> & Hs).
  cbn [bind_exn]. eexists. split; [reflexivity|]. simpl. split.
  - apply paint_shape, Hshape.
  - apply paint_Forall; [|exact Hall].
    rewrite shaded_id by lia. apply HP, Hs.
Qed.

Lemma ice_spot_invariant (P : rgba8 -> Prop) (width height : Z) :
  (0 <= width)%Z -> (0 <= height)%Z ->
  P (Rgba8 200 230 255 200) ->
  forall (i : nat) (st : rng * image8),
    shape (Z.to_nat width) (Z.to_nat height) st.2 /\ Forall (Forall P) st.2 ->
    exists st', ice_spot width height i st = inr st' /\
      (shape (Z.to_nat width) (Z.to_nat height) st'.2 /\
       Forall (Forall P) st'.2).
Proof.
  intros Hw Hh HP i [g img] [Hshape Hall]. simpl in Hshape, Hall.
  destruct randint_ok as [Hrange _]. unfold ice_spot.
  destruct (Hrange 0%Z width g ltac:(lia)) as (x & g1 & -> & _).
  cbn [bind_exn].
  destruct (Hrange 0%Z height g1 ltac:(lia)) as (y & g2 & -> & _).
  cbn [bind_exn].
  destruct (Hrange 2%Z 6%Z g2 ltac:(lia)) as (size & g3 & -> & _).
  cbn [bind_exn]. eexists. split; [reflexivity|]. simpl. split.
  - apply paint_shape, Hshape.
  - apply paint_Forall; [exact HP|exact Hall].
Qed.

Lemma ramp_spot_invariant (P : rgba8 -> Prop) (width height : Z)
      (facing_right : bool) :
  (0 <= width)%Z -> (0 <= height)%Z ->
  (forall s, (-20 <= s <= 20)%Z -> P (rgb (179 + s) (153 + s) (102 + s))) ->
  forall (i : nat) (st : rng * image8),
    shape (Z.to_nat width) (Z.to_nat height) st.2 /\ Forall (Forall P) st.2 ->
    exists st', ramp_spot width height facing_right i st = inr st' /\
      (shape (Z.to_nat width) (Z.to_nat height) st'.2 /\
       Forall (Forall P) st'.2).
Proof.
  intros Hw Hh HP i [g img] [Hshape Hall]. simpl in Hshape, Hall.
  destruct randint_ok as [Hrange _]. unfold ramp_spot.
  assert (Hhalf : (0 <= width / 2 <= width)%Z).
  { split; [apply Z.div_pos; lia|].
    apply Z.div_le_upper_bound; lia. }
  assert (Hx : exists x g1,
             (if facing_right then randint (width / 2) width g
              else randint 0 (width / 2) g) = inr (x, g1)).
  { destruct facing_right.
    - destruct (Hrange (width / 2)%Z width g ltac:(lia)) as (x & g1 & E & _).
      eauto.
    - destruct (Hrange 0%Z (width / 2)%Z g ltac:(lia)) as (x & g1 & E & _).
      eauto. }
  destruct Hx as (x & g1 & ->). cbn [bind_exn].
  destruct (Hrange 0%Z height g1 ltac:(lia)) as (y & g2 & -> & _).
  cbn [bind_exn].
  destruct (Hrange 2%Z 6%Z g2 ltac:(lia)) as (size & g3 & -> & _).
  cbn [bind_exn].
  destruct (Hrange (-20)%Z 20%Z g3 ltac:(lia)) as (shade & g4 & -> & Hs).
  cbn [bind_exn]. eexists. split; [reflexivity|]. simpl. split.
  - apply paint_shape, Hshape.
  - apply paint_Forall; [|exact Hall].
    rewrite !shaded_id by lia. apply HP, Hs.
Qed.

(** The first spot of a platform that is too small. *)
Lemma platform_spot_raises (width height : Z) (g : rng) (img : image8) :
  (width < 10 \/ height < 5)%Z ->
  platform_spot width height 0 (g, img) = inl "ValueError"%string.
Proof.
  intros Hsmall. destruct randint_ok as [Hrange Hempty].
  unfold platform_spot.
  destruct (Z.lt_ge_cases width 10) as [Hw|Hw].
  - rewrite Hempty by lia. reflexivity.
  - destruct (Hrange 0%Z (width - 10)%Z g ltac:(lia)) as (x & g1 & -> & _).
    cbn [bind_exn]. rewrite Hempty by lia. reflexivity.
Qed.

End Spots.

Lemma lowest_random_spec : @randint_spec lowest_random.
Proof.
  split.
  - intros a b g Hab. exists a, g. simpl.
    destruct (Z.ltb_spec b a); [lia|]. split; [reflexivity|lia].
  - intros a b g Hab. simpl. destruct (Z.ltb_spec b a); [reflexivity|lia].
Qed.

(** X12: a platform texture of at least 10 x 5 is generated without an
    exception, has the requested size, and is opaque grey throughout: no
    sample of the transparent canvas is left, and the grey level is 85
    (border), 180 (highlight) or within 30 of the base level 136, so the
    clamp to 0..255 never acts. *)
Theorem platform_texture_is_opaque_grey `{ImageDraw} `{Random}
        (width height : Z) :
  randint_spec -> (10 <= width)%Z -> (5 <= height)%Z ->
  exists img,
    create_platform_texture width height = inr img /\
    shape (Z.to_nat width) (Z.to_nat height) img /\
    Forall (Forall (fun p =>
      px_a p = 255%Z /\ px_g p = px_r p /\ px_b p = px_r p /\
      (px_r p = 85 \/ 106 <= px_r p <= 166 \/ px_r p = 180)%Z)) img.
Proof.
  intros Hrand Hw Hh. unfold create_platform_texture.
  rewrite Image_new_ok by lia. cbn [bind_exn].
  set (P := fun p : rgba8 =>
      px_a p = 255%Z /\ px_g p = px_r p /\ px_b p = px_r p /\
      (px_r p = 85 \/ 106 <= px_r p <= 166 \/ px_r p = 180)%Z).
  set (img0 := paint _ _ _).
  assert (Hs0 : shape (Z.to_nat width) (Z.to_nat height) img0)
    by apply paint_shape, replicate_shape.
  assert (Hp0 : Forall (Forall P) img0).
  { apply (paint_cover P (Z.to_nat width) (Z.to_nat height)).
    - apply replicate_shape.
    - intros x y Hx Hy. apply rectangle_fill_canvas; assumption.
    - unfold P. simpl. lia. }
  destruct (for_range_exn_invariant
              (fun st : rng * image8 =>
                 shape (Z.to_nat width) (Z.to_nat height) st.2 /\
                 Forall (Forall P) st.2)
              50 (platform_spot width height) (seed 42, img0))
    as ([g img1] & -> & Hs1 & Hp1).
  - apply (platform_spot_invariant Hrand P); [lia|lia|].
    intros s Hs. unfold P. simpl. lia.
  - split; assumption.
  - cbn [bind_exn]. simpl in Hs1, Hp1. eexists. split; [reflexivity|]. split.
    + apply paint_shape, paint_shape, Hs1.
    + apply paint_Forall; [unfold P; simpl; lia|].
      apply paint_Forall; [unfold P; simpl; lia|]. exact Hp1.
Qed.

Lemma platform_texture_is_opaque_grey_witness :
  exists img,
    @create_platform_texture box_draw lowest_random 200 30 = inr img /\
    shape 200 30 img /\
    Forall (Forall (fun p =>
      px_a p = 255%Z /\ px_g p = px_r p /\ px_b p = px_r p /\
      (px_r p = 85 \/ 106 <= px_r p <= 166 \/ px_r p = 180)%Z)) img.
Proof.
  apply (@platform_texture_is_opaque_grey box_draw lowest_random 200 30);
    [exact lowest_random_spec|lia|lia].
Defined.

(** X13: a platform texture narrower than 10 or lower than 5 is never
    generated: the call raises ValueError, from [Image.new] for a negative
    size and otherwise from the empty range of [randint] at the first
    spot. *)
Theorem platform_texture_needs_room `{ImageDraw} `{Random}
        (width height : Z) :
  randint_spec -> (width < 10 \/ height < 5)%Z ->
  create_platform_texture width height = inl "ValueError"%string.
Proof.
  intros Hrand Hsmall. unfold create_platform_texture.
  destruct (Z.lt_ge_cases width 0) as [Hw|Hw];
    [rewrite Image_new_negative by lia; reflexivity|].
  destruct (Z.lt_ge_cases height 0) as [Hh|Hh];
    [rewrite Image_new_negative by lia; reflexivity|].
  rewrite Image_new_ok by lia. cbn [bind_exn].
  rewrite (for_range_exn_raises 49 _ _ "ValueError"%string);
    [reflexivity|].
  apply platform_spot_raises; assumption.
Qed.

Lemma platform_texture_needs_room_witness :
  @create_platform_texture box_draw lowest_random 200 4
  = inl "ValueError"%string.
Proof.
  apply (@platform_texture_needs_room box_draw lowest_random 200 4);
    [exact lowest_random_spec|lia].
Defined.

(** X14: an ice texture of at least 1 x 1 is generated without an
    exception, whatever its size, has the requested size, and every
    sample has one of four colours: the ice colour (alpha 240), the
    crystal colour (alpha 200), the opaque border or the opaque shine.
    In particular no sample is left transparent. *)
Theorem ice_texture_palette `{ImageDraw} `{Random} (width height : Z) :
  randint_spec -> (1 <= width)%Z -> (1 <= height)%Z ->
  exists img,
    create_ice_texture width height = inr img /\
    shape (Z.to_nat width) (Z.to_nat height) img /\
    Forall (Forall (fun p =>
      p = Rgba8 173 216 230 240 \/ p = Rgba8 200 230 255 200 \/
      p = Rgba8 100 150 200 255 \/ p = Rgba8 220 240 255 255)) img.
Proof.
  intros Hrand Hw Hh. unfold create_ice_texture.
  rewrite Image_new_ok by lia. cbn [bind_exn].
  set (P := fun p : rgba8 =>
      p = Rgba8 173 216 230 240 \/ p = Rgba8 200 230 255 200 \/
      p = Rgba8 100 150 200 255 \/ p = Rgba8 220 240 255 255).
  set (img0 := paint _ _ _).
  assert (Hs0 : shape (Z.to_nat width) (Z.to_nat height) img0)
    by apply paint_shape, replicate_shape.
  assert (Hp0 : Forall (Forall P) img0).
  { apply (paint_cover P (Z.to_nat width) (Z.to_nat height)).
    - apply replicate_shape.
    - intros x y Hx Hy. apply rectangle_fill_canvas; assumption.
    - unfold P. tauto. }
  destruct (for_range_exn_invariant
              (fun st : rng * image8 =>
                 shape (Z.to_nat width) (Z.to_nat height) st.2 /\
                 Forall (Forall P) st.2)
              30 (ice_spot width height) (seed 123, img0))
    as ([g img1] & -> & Hs1 & Hp1).
  - apply (ice_spot_invariant Hrand P); [lia|lia|]. unfold P. tauto.
  - split; assumption.
  - cbn [bind_exn]. simpl in Hs1, Hp1. eexists. split; [reflexivity|]. split.
    + apply paint_shape, paint_shape, Hs1.
    + apply paint_Forall; [unfold P, rgb; tauto|].
      apply paint_Forall; [unfold P, rgb; tauto|]. exact Hp1.
Qed.

Lemma ice_texture_palette_witness :
  exists img,
    @create_ice_texture box_draw lowest_random 3 2 = inr img /\
    shape 3 2 img /\
    Forall (Forall (fun p =>
      p = Rgba8 173 216 230 240 \/ p = Rgba8 200 230 255 200 \/
      p = Rgba8 100 150 200 255 \/ p = Rgba8 220 240 255 255)) img.
Proof.
  apply (@ice_texture_palette box_draw lowest_random 3 2);
    [exact lowest_random_spec|lia|lia].
Defined.

(** X15: a ramp texture of any size from 0 x 0, facing either way, is
    generated without an exception, has the requested size, and every
    sample is transparent black (the untouched canvas), the opaque border
    colour, or the opaque ramp colour (179, 153, 102) with one shade of
    at most 20 added to its three channels; the clamp never acts. *)
Theorem ramp_texture_palette `{ImageDraw} `{Random} (width height : Z)
        (facing_right : bool) :
  randint_spec -> (0 <= width)%Z -> (0 <= height)%Z ->
  exists img,
    create_ramp_texture width height facing_right = inr img /\
    shape (Z.to_nat width) (Z.to_nat height) img /\
    Forall (Forall (fun p =>
      p = Rgba8 0 0 0 0 \/ p = Rgba8 128 109 73 255 \/
      exists s, (-20 <= s <= 20)%Z /\
                p = Rgba8 (179 + s) (153 + s) (102 + s) 255)) img.
Proof.
  intros Hrand Hw Hh. unfold create_ramp_texture.
  rewrite Image_new_ok by lia. cbn [bind_exn].
  set (P := fun p : rgba8 =>
      p = Rgba8 0 0 0 0 \/ p = Rgba8 128 109 73 255 \/
      exists s, (-20 <= s <= 20)%Z /\
                p = Rgba8 (179 + s) (153 + s) (102 + s) 255).
  assert (Hshade : forall s, (-20 <= s <= 20)%Z ->
                     P (rgb (179 + s) (153 + s) (102 + s))).
  { intros s Hs. unfold P, rgb. right. right. exists s. split; [lia|reflexivity]. }
  set (img0 := paint _ _ _).
  assert (Hs0 : shape (Z.to_nat width) (Z.to_nat height) img0)
    by apply paint_shape, replicate_shape.
  assert (Hp0 : Forall (Forall P) img0).
  { apply paint_Forall.
    - apply (Hshade 0%Z). lia.
    - apply replicate_Forall. unfold P. tauto. }
  destruct (for_range_exn_invariant
              (fun st : rng * image8 =>
                 shape (Z.to_nat width) (Z.to_nat height) st.2 /\
                 Forall (Forall P) st.2)
              40 (ramp_spot width height facing_right) (seed 456, img0))
    as ([g img1] & -> & Hs1 & Hp1).
  - apply (ramp_spot_invariant Hrand P); [lia|lia|exact Hshade].
  - split; assumption.
  - cbn [bind_exn]. simpl in Hs1, Hp1. eexists. split; [reflexivity|]. split.
    + apply paint_shape, Hs1.
    + apply paint_Forall; [unfold P, rgb; tauto|]. exact Hp1.
Qed.

Lemma ramp_texture_palette_witness :
  exists img,
    @create_ramp_texture box_draw lowest_random 4 3 true = inr img /\
    shape 4 3 img /\
    Forall (Forall (fun p =>
      p = Rgba8 0 0 0 0 \/ p = Rgba8 128 109 73 255 \/
      exists s, (-20 <= s <= 20)%Z /\
                p = Rgba8 (179 + s) (153 + s) (102 + s) 255)) img.
Proof.
  apply (@ramp_texture_palette box_draw lowest_random 4 3 true);
    [exact lowest_random_spec|lia|lia].
Defined.

(** X16: a spike texture of any size from 0 x 0 has the requested size
    and its samples are transparent black or one of three opaque reds;
    a negative size raises ValueError. *)
Theorem spike_texture_palette `{ImageDraw} (width height : Z) :
  ((0 <= width)%Z -> (0 <= height)%Z ->
   exists img,
     create_spike_texture width height = inr img /\
     shape (Z.to_nat width) (Z.to_nat height) img /\
     Forall (Forall (fun p =>
       p = Rgba8 0 0 0 0 \/ p = Rgba8 200 0 0 255 \/
       p = Rgba8 120 0 0 255 \/ p = Rgba8 255 100 100 255)) img) /\
  ((width < 0 \/ height < 0)%Z ->
   create_spike_texture width height = inl "ValueError"%string).
Proof.
  split.
  - intros Hw Hh. unfold create_spike_texture.
    rewrite Image_new_ok by lia. cbn [bind_exn].
    eexists. split; [reflexivity|]. split.
    + do 3 apply paint_shape. apply replicate_shape.
    + do 3 (apply paint_Forall; [unfold rgb; tauto|]).
      apply replicate_Forall. tauto.
  - intros Hneg. unfold create_spike_texture.
    rewrite Image_new_negative by exact Hneg. reflexivity.
Qed.

(** X17: the caveman sprite of any size from 0 has size x size samples,
    each transparent black or opaque in one of the five colours of the
    drawing (fur, skin, hair, eyes, outline); a negative size raises
    ValueError. *)
Theorem enhanced_caveman_palette `{ImageDraw} (size : Z) :
  ((0 <= size)%Z ->
   exists img,
     create_enhanced_caveman size = inr img /\
     shape (Z.to_nat size) (Z.to_nat size) img /\
     Forall (Forall (fun p =>
       p = Rgba8 0 0 0 0 \/ p = Rgba8 101 67 33 255 \/
       p = Rgba8 210 180 140 255 \/ p = Rgba8 70 40 20 255 \/
       p = Rgba8 50 30 20 255 \/ p = Rgba8 0 0 0 255)) img) /\
  ((size < 0)%Z ->
   create_enhanced_caveman size = inl "ValueError"%string).
Proof.
  split.
  - intros Hs. unfold create_enhanced_caveman.
    rewrite Image_new_ok by lia. cbn [bind_exn].
    eexists. split; [reflexivity|]. split.
    + do 15 apply paint_shape. apply replicate_shape.
    + do 15 (apply paint_Forall; [unfold rgb; tauto|]).
      apply replicate_Forall. tauto.
  - intros Hneg. unfold create_enhanced_caveman.
    rewrite Image_new_negative by lia. reflexivity.
Qed.
